(** * python_agents: the tool-calling client and the conversation memory

    A shallow embedding of [python_agents/message.py], [python_agents/memory.py]
    and [python_agents/client.py], and the properties of the conversation
    store and of [LLMClient.invoke] that hold on them. *)

From Stdlib Require Import Ascii String.
From stdpp Require Import base option list strings gmap.

Open Scope string_scope.
Open Scope list_scope.
Open Scope nat_scope.

(** ** message.py *)

(** A tool-call request carried by an assistant message:
    [tc.id], [tc.function.name], [tc.function.arguments]. *)
Record Function := mkFunction {
  fn_name : string;
  fn_arguments : option string
}.

Record ToolCall := mkToolCall {
  tc_id : string;
  tc_function : Function
}.

(** [class Message(TypedDict)]: [role] and [content] are required keys, the
    other three are [NotRequired].  [content] is optional here because the
    dictionaries that [invoke] appends also come from [model_dump()] of an
    assistant message, whose content may be [None]. *)
Record Message := mkMessage {
  role : string;
  content : option string;
  tool_call_id : option string;
  name : option string;
  tool_calls : option (list ToolCall)
}.

Definition is_system (m : Message) : bool := String.eqb (role m) "system".

(** ** memory.py *)

Module Memory.

(** [SimpleMemory]: the object has the single attribute [messages]. *)
Record SimpleMemory := mkMemory { messages : list Message }.

(** [__init__]: [self.messages = []] *)
Definition init : SimpleMemory := mkMemory [].

(** [self.messages.append(message)] *)
Definition add_message (self : SimpleMemory) (message : Message) : SimpleMemory :=
  mkMemory (messages self ++ [message]).

(** Python's [list.insert(i, x)] for a non-negative [i]; an index past the
    end appends. *)
Definition py_list_insert {A} (i : nat) (x : A) (l : list A) : list A :=
  take i l ++ x :: drop i l.

Definition insert_system_message (self : SimpleMemory) (message : Message)
  : SimpleMemory :=
  if 0 <? length (messages self) then
    match messages self !! 0 with
    | Some first =>
        if String.eqb (role first) "system"
        then mkMemory (<[0 := message]> (messages self))
        else mkMemory (py_list_insert 0 message (messages self))
    | None => self (* not reached: the list is not empty *)
    end
  else mkMemory [message].

(** [self.messages = []] *)
Definition clear (self : SimpleMemory) : SimpleMemory := mkMemory [].

(** The operations of the store, and a run of a sequence of them. *)
Inductive MemOp :=
| OpAdd (message : Message)
| OpInsertSystem (message : Message)
| OpClear.

Definition step (self : SimpleMemory) (op : MemOp) : SimpleMemory :=
  match op with
  | OpAdd m => add_message self m
  | OpInsertSystem m => insert_system_message self m
  | OpClear => clear self
  end.

Definition run (self : SimpleMemory) (ops : list MemOp) : SimpleMemory :=
  foldl step self ops.

(** The system-message slot: every system message of the store sits at
    index 0, hence there is at most one. *)
Definition system_count (self : SimpleMemory) : nat :=
  length (filter (fun m => is_system m = true) (messages self)).

Definition system_first (self : SimpleMemory) : Prop :=
  ∀ i m, messages self !! i = Some m → role m = "system" → i = 0.

Definition slot_invariant (self : SimpleMemory) : Prop :=
  system_count self ≤ 1 ∧ system_first self.

(** A run in which [add_message] never puts a system message behind
    messages that are already stored. *)
Fixpoint appends_respect_slot (self : SimpleMemory) (ops : list MemOp) : Prop :=
  match ops with
  | [] => True
  | op :: rest =>
      match op with
      | OpAdd m => role m = "system" → messages self = []
      | _ => True
      end ∧ appends_respect_slot (step self op) rest
  end.

(** In other words: no message after the first is a system message. *)
Definition rest_clean (ms : list Message) : Prop :=
  Forall (λ m, is_system m = false) (tail ms).

End Memory.

(** ** client.py *)

(** *** Python values and exceptions *)

(** What the client needs from the Python run time: the objects that
    [json.loads] produces and that tools receive and return, the empty
    dictionary [{}], the unpacking of an object into keyword arguments in a
    call (defined only on a mapping with string keys) and [str(o)].
    [json_loads s = None] stands for [json.JSONDecodeError]. *)
Class PyRuntime := {
  PyObj : Type;
  py_empty_dict : PyObj;
  json_loads : string → option PyObj;
  py_kwargs : PyObj → option (list (string * PyObj));
  py_kwargs_empty : py_kwargs py_empty_dict = Some [];
  py_str : PyObj → string
}.

Inductive PyExn :=
| ValueError (msg : string)
| RuntimeError (msg : string)
| JSONDecodeError
| TypeError
| IndexError
| Raised (what : string). (* raised by a tool callable or by the transport *)

Inductive Result (A : Type) :=
| Ok (a : A)
| Raise (e : PyExn).
Arguments Ok {A} a.
Arguments Raise {A} e.

(** Truthiness of an optional string: [None] and [''] are falsy. *)
Definition truthy (s : option string) : bool :=
  match s with
  | Some s => negb (String.eqb s "")
  | None => false
  end.

(** [a or b] *)
Definition py_or (a b : option string) : option string :=
  if truthy a then a else b.

(** *** The model's answer: [response.choices[0]] is a [Choice] whose
    [message] may carry [tool_calls]. *)
Record ChatMessage := mkChatMessage {
  cm_role : string;
  cm_content : option string;
  cm_tool_calls : option (list ToolCall)
}.

Record Choice := mkChoice {
  message : ChatMessage;
  finish_reason : string
}.

(** [message.model_dump()]: the dictionary of the assistant message (its
    keys other than role, content and tool_calls are not modelled). *)
Definition model_dump (m : ChatMessage) : Message :=
  mkMessage (cm_role m) (cm_content m) None None (cm_tool_calls m).

(** *** The argument [query] of [invoke], a Python value with a run-time
    type.  [Message] is a [TypedDict]: calling it, like writing a dictionary
    display, builds a plain [dict], so the run-time type of a Message is
    [dict].  Only an object allocated with [dict.__new__(Message)] has the
    class [Message] itself as its type. *)
Inductive Query :=
| QStr (s : string)
| QDict (m : Message)     (* what [Message(...)] and [{...}] build *)
| QInstance (m : Message) (* made with [dict.__new__(Message)] *)
| QList (l : nat)         (* a reference to a list object *)
| QOther.

Inductive PyType := Ty_str | Ty_dict | Ty_list | Ty_Message | Ty_other.

Definition type_of (q : Query) : PyType :=
  match q with
  | QStr _ => Ty_str
  | QDict _ => Ty_dict
  | QInstance _ => Ty_Message
  | QList _ => Ty_list
  | QOther => Ty_other
  end.

Section Client.
(** [Schema]: what [tools.create_tool_schema] derives for a callable. *)
Context `{PyRuntime} {Schema : Type}.

Definition Kwargs : Type := list (string * PyObj).

(** A registered callable: what it returns, or raises, on given keyword
    arguments. *)
Record Callable := mkCallable {
  fn_call : Kwargs → Result PyObj
}.

(** [self.tools[name] = {"func": func, "schema": schema}] *)
Record ToolEntry := mkToolEntry {
  func : Callable;
  schema : Schema
}.

(** [LLMClient]: [self.model_name] and [self.tools], a dictionary in
    insertion order.  [self.client] is the endpoint below. *)
Record LLMClient := mkLLMClient {
  model_name : option string;
  tools : list (string * ToolEntry)
}.

(** [name in d] and [d[name]] *)
Fixpoint dict_get {V} (d : list (string * V)) (key : string) : option V :=
  match d with
  | [] => None
  | (k, v) :: rest => if String.eqb k key then Some v else dict_get rest key
  end.

(** *** The world: list objects on the heap, and what the client did.
    The coroutines of the client are awaited one after the other, so the
    client is a sequential program over this state. *)
Inductive Event :=
| EvCompletion (model : option string) (messages : list Message)
               (tool_schemas : list Schema)
| EvToolRun (tool : string) (kwargs : Kwargs)
| EvPrintCalled (tool : string)
| EvPrintResponse (content : option string).

Record World := mkWorld {
  heap : gmap nat (list Message);
  served : nat;       (* completions answered so far *)
  trace : list Event
}.

(** The completion endpoint: the outcome of its n-th exchange, either the
    [choices] of the response or the exception of a failed exchange. *)
Variable endpoint : nat → Result (list Choice).

Definition M (A : Type) : Type := World → Result A * World.

Definition ret {A} (a : A) : M A := fun w => (Ok a, w).

Definition raise {A} (e : PyExn) : M A := fun w => (Raise e, w).

Definition bind {A B} (c : M A) (k : A → M B) : M B :=
  fun w =>
    match c w with
    | (Ok a, w') => k a w'
    | (Raise e, w') => (Raise e, w')
    end.

Notation "x <- c ;; k" := (bind c (fun x => k))
  (at level 100, c at next level, right associativity).
Notation "c ;;; k" := (bind c (fun _ => k))
  (at level 100, right associativity).

Definition lift {A} (r : Result A) : M A := fun w => (r, w).

Definition emit (e : Event) : M unit :=
  fun w => (Ok tt, mkWorld (heap w) (served w) (trace w ++ [e])).

(** [[m1, ...]]: a new list object *)
Definition new_list (ms : list Message) : M nat :=
  fun w =>
    let l := fresh (dom (heap w)) in
    (Ok l, mkWorld (<[l := ms]> (heap w)) (served w) (trace w)).

(** [l.append(m)] *)
Definition list_append (l : nat) (m : Message) : M unit :=
  fun w => (Ok tt, mkWorld (alter (λ ms, ms ++ [m]) l (heap w)) (served w) (trace w)).

(** The contents of a list object. *)
Definition list_read (l : nat) : M (list Message) :=
  fun w => (Ok (default [] (heap w !! l)), w).

Fixpoint for_each {A} (xs : list A) (body : A → M unit) : M unit :=
  match xs with
  | [] => ret tt
  | x :: rest => body x ;;; for_each rest body
  end.

(** [self.client.chat.completions.create(model=, messages=, tools=)] *)
Definition completions_create (model : option string) (messages : nat)
    (available_tools : list Schema) : M (list Choice) :=
  sent <- list_read messages ;;
  emit (EvCompletion model sent available_tools) ;;;
  fun w => (endpoint (served w), mkWorld (heap w) (S (served w)) (trace w)).

(** [choices[0]] *)
Definition first_choice (choices : list Choice) : M Choice :=
  match choices with
  | c :: _ => ret c
  | [] => raise IndexError
  end.

Definition _make_llm_call (self : LLMClient) (messages : nat)
    (model : option string) : M Choice :=
  let available_tools := map (λ tool, schema (snd tool)) (tools self) in
  choices <- completions_create (py_or model (model_name self)) messages
              available_tools ;;
  first_choice choices.

(** The call of [func] with [tool_args] unpacked into keyword arguments. *)
Definition call_with_kwargs (tool_name : string) (f : Callable) (tool_args : PyObj)
  : M PyObj :=
  match py_kwargs tool_args with
  | Some kwargs => emit (EvToolRun tool_name kwargs) ;;; lift (fn_call f kwargs)
  | None => raise TypeError
  end.

Definition _make_tool_call (self : LLMClient) (tc : ToolCall)
  : M (string * string * string) :=
  let tool_name := fn_name (tc_function tc) in
  let tool_args := fn_arguments (tc_function tc) in
  tool_args <- (if truthy tool_args
               then match json_loads (default "" tool_args) with
                    | Some o => ret o
                    | None => raise JSONDecodeError
                    end
               else ret py_empty_dict) ;;
  match dict_get (tools self) tool_name with
  | Some entry =>
      r <- call_with_kwargs tool_name (func entry) tool_args ;;
      ret (tc_id tc, tool_name, py_str r)
  | None =>
      raise (RuntimeError ("LLM tried to call unknown tool '" +:+ tool_name +:+ "'"))
  end.

Definition invoke (self : LLMClient) (query : Query) (model : option string)
    (verbose : bool) : M Choice :=
  messages <- match type_of query, query with
             | Ty_str, QStr q => new_list [mkMessage "user" (Some q) None None None]
             | Ty_Message, QInstance m => new_list [m]
             | Ty_list, QList l => ret l
             | _, _ => raise (ValueError "Parameter query is of wrong type!")
             end ;;
  response <- _make_llm_call self messages model ;;
  match cm_tool_calls (message response) with
  | Some tcs =>
      list_append messages (model_dump (message response)) ;;;
      for_each tcs (λ tc,
        called <- _make_tool_call self tc ;;
        let '(tool_call_id, tool_name, tool_result) := called in
        emit (EvPrintCalled tool_name) ;;;
        list_append messages
          (mkMessage "tool" (Some tool_result) (Some tool_call_id)
                     (Some tool_name) None)) ;;;
      _make_llm_call self messages model
  | None =>
      (if verbose then emit (EvPrintResponse (cm_content (message response)))
       else ret tt) ;;;
      ret response
  end.

(** The part of [invoke] that follows the normalisation of [query], with
    [messages] bound to a list object. *)
Definition invoke_on (self : LLMClient) (messages : nat) (model : option string)
    (verbose : bool) : M Choice :=
  response <- _make_llm_call self messages model ;;
  match cm_tool_calls (message response) with
  | Some tcs =>
      list_append messages (model_dump (message response)) ;;;
      for_each tcs (λ tc,
        called <- _make_tool_call self tc ;;
        let '(tool_call_id, tool_name, tool_result) := called in
        emit (EvPrintCalled tool_name) ;;;
        list_append messages
          (mkMessage "tool" (Some tool_result) (Some tool_call_id)
                     (Some tool_name) None)) ;;;
      _make_llm_call self messages model
  | None =>
      (if verbose then emit (EvPrintResponse (cm_content (message response)))
       else ret tt) ;;;
      ret response
  end.

(** *** What the statements below speak about *)

(** The conversation sequence that [invoke] works on: the list object and
    its contents once [query] is normalised.  A text gives a new list with
    one user message, and an object of class [Message] a new list holding
    it; a list object (one that is live on the heap) is used itself.  A
    Message, being a [dict], gives none. *)
Definition conversation (w : World) (query : Query)
  : option (nat * list Message) :=
  match query with
  | QStr q =>
      Some (fresh (dom (heap w)), [mkMessage "user" (Some q) None None None])
  | QInstance m => Some (fresh (dom (heap w)), [m])
  | QList l => ms ← heap w !! l; Some (l, ms)
  | QDict _ | QOther => None
  end.

(** The object that [_make_tool_call] binds to [tool_args] in its first
    step; [None] when [json.loads] raises. *)
Definition parsed_arguments (raw : option string) : option PyObj :=
  if truthy raw then json_loads (default "" raw) else Some py_empty_dict.

(** The request [tc] names a registered tool, and the call of its callable
    on the parsed arguments [kwargs] returns [v]. *)
Definition resolves (self : LLMClient) (tc : ToolCall)
    (out : Kwargs * PyObj) : Prop :=
  ∃ entry o,
    dict_get (tools self) (fn_name (tc_function tc)) = Some entry ∧
    parsed_arguments (fn_arguments (tc_function tc)) = Some o ∧
    py_kwargs o = Some out.1 ∧
    fn_call (func entry) out.1 = Ok out.2.

(** The tool-result message for a request whose callable returned [v]. *)
Definition tool_message (tc : ToolCall) (v : PyObj) : Message :=
  mkMessage "tool" (Some (py_str v)) (Some (tc_id tc))
            (Some (fn_name (tc_function tc))) None.

Definition tool_messages (tcs : list ToolCall) (outs : list (Kwargs * PyObj))
  : list Message :=
  zip_with (λ tc out, tool_message tc out.2) tcs outs.

(** What a batch of resolved requests leaves in the trace. *)
Definition batch_events (tcs : list ToolCall) (outs : list (Kwargs * PyObj))
  : list Event :=
  mjoin (zip_with (λ tc out,
           [EvToolRun (fn_name (tc_function tc)) out.1;
            EvPrintCalled (fn_name (tc_function tc))]) tcs outs).

Definition is_completion (e : Event) : bool :=
  match e with EvCompletion _ _ _ => true | _ => false end.

Definition is_tool_run (e : Event) : bool :=
  match e with EvToolRun _ _ => true | _ => false end.

(** The number of model calls, and of calls of tool callables, in a trace. *)
Definition completions_in (t : list Event) : nat :=
  length (filter (λ e, is_completion e = true) t).

Definition tool_runs_in (t : list Event) : nat :=
  length (filter (λ e, is_tool_run e = true) t).

(** The request that a model call sends. *)
Definition request (self : LLMClient) (model : option string)
    (sent : list Message) : Event :=
  EvCompletion (py_or model (model_name self)) sent
               (map (λ tool, schema (snd tool)) (tools self)).

(** [choices[0]] of an exchange. *)
Definition top_choice (answer : Result (list Choice)) : Result Choice :=
  match answer with
  | Ok (c :: _) => Ok c
  | Ok [] => Raise IndexError
  | Raise e => Raise e
  end.

Definition unknown_tool (tool_name : string) : PyExn :=
  RuntimeError ("LLM tried to call unknown tool '" +:+ tool_name +:+ "'").

End Client.

(** ** A small run time and scenarios for the examples *)

Module Toy.

(** Objects are strings and flat dictionaries of strings. *)
Inductive obj :=
| Str (s : string)
| Dict (d : list (string * string)).

Definition code (c : ascii) : nat := nat_of_ascii c.

Definition is_ws (c : ascii) : bool :=
  (code c =? 32) || (code c =? 9) || (code c =? 10) || (code c =? 13).

(** Printable ASCII other than the two quotes and the backslash. *)
Definition plain (c : ascii) : bool :=
  (32 <=? code c) && (code c <=? 126) &&
  negb ((code c =? 34) || (code c =? 39) || (code c =? 92)).

Fixpoint skip_ws (s : string) : string :=
  match s with
  | String c r => if is_ws c then skip_ws r else s
  | EmptyString => s
  end.

(** The rest of the text after the character with code [n], white space
    skipped before it. *)
Definition expect (n : nat) (s : string) : option string :=
  match skip_ws s with
  | String c r => if code c =? n then Some r else None
  | EmptyString => None
  end.

Definition at_end (s : string) : bool :=
  match skip_ws s with
  | EmptyString => true
  | _ => false
  end.

(** A string literal after its opening quote: its characters and the rest
    of the text after the closing quote. *)
Fixpoint read_string (s : string) : option (string * string) :=
  match s with
  | EmptyString => None
  | String c r =>
      if code c =? 34 then Some (EmptyString, r)
      else if plain c then
        '(t, rest) ← read_string r; Some (String c t, rest)
      else None
  end.

(** [d[k] = v] *)
Fixpoint dict_set {V} (k : string) (v : V) (d : list (string * V))
  : list (string * V) :=
  match d with
  | [] => [(k, v)]
  | (k', v') :: rest =>
      if String.eqb k' k then (k', v) :: rest else (k', v') :: dict_set k v rest
  end.

Fixpoint read_members (fuel : nat) (acc : list (string * string)) (s : string)
  : option (list (string * string)) :=
  match fuel with
  | 0 => None
  | S fuel =>
      r ← expect 34 s;
      '(k, r) ← read_string r;
      r ← expect 58 r;
      r ← expect 34 r;
      '(v, r) ← read_string r;
      match expect 44 r with
      | Some r => read_members fuel (dict_set k v acc) r
      | None =>
          r ← expect 125 r;
          if at_end r then Some (dict_set k v acc) else None
      end
  end.

(** A decoder for the JSON texts of the examples: a string, or an object
    whose members are strings, of plain characters.  On these texts it
    returns what [json.loads] returns, the truncated object of the examples
    is rejected by both, and other texts are not used. *)
Definition loads (s : string) : option obj :=
  match expect 123 s with
  | Some r =>
      match expect 125 r with
      | Some r' => if at_end r' then Some (Dict []) else None
      | None => Dict <$> read_members (String.length s) [] r
      end
  | None =>
      r ← expect 34 s;
      '(t, r) ← read_string r;
      if at_end r then Some (Str t) else None
  end.

Definition kwargs (o : obj) : option (list (string * obj)) :=
  match o with
  | Dict d => Some (map (λ kv, (kv.1, Str kv.2)) d)
  | Str _ => None
  end.

Definition quoted (s : string) : string := "'" +:+ s +:+ "'".

Fixpoint join (sep : string) (l : list string) : string :=
  match l with
  | [] => EmptyString
  | [x] => x
  | x :: rest => x +:+ sep +:+ join sep rest
  end.

Definition str (o : obj) : string :=
  match o with
  | Str s => s
  | Dict d =>
      "{" +:+ join ", " (map (λ kv, quoted kv.1 +:+ ": " +:+ quoted kv.2) d) +:+ "}"
  end.

Definition runtime : PyRuntime :=
  {| PyObj := obj;
     py_empty_dict := Dict [];
     json_loads := loads;
     py_kwargs := kwargs;
     py_kwargs_empty := eq_refl;
     py_str := str |}.

Definition dq : string := String (ascii_of_nat 34) EmptyString.

(** [def get_weather(city): return "Sunny, 22C"] *)
Definition get_weather : @Callable runtime :=
  @mkCallable runtime (λ kw,
    match kw with
    | [(k, _)] => if String.eqb k "city" then Ok (Str "Sunny, 22C") else Raise TypeError
    | _ => Raise TypeError
    end).

Definition client : @LLMClient runtime string :=
  mkLLMClient (Some "some-model")
    [("get_weather", mkToolEntry get_weather "get_weather(city: str)")].

(** An endpoint that gives the listed answers in turn and then fails. *)
Definition scripted (answers : list (list Choice)) (n : nat)
  : Result (list Choice) :=
  match answers !! n with
  | Some choices => Ok choices
  | None => Raise (Raised "APIConnectionError")
  end.

Definition world0 : @World runtime string := mkWorld ∅ 0 [].

(** The text [{"city": "Paris"}]. *)
Definition paris : string := "{" +:+ dq +:+ "city" +:+ dq +:+ ": " +:+ dq +:+ "Paris" +:+ dq +:+ "}".

Definition weather_call (id : string) : ToolCall :=
  mkToolCall id (mkFunction "get_weather" (Some paris)).

Definition asks (tcs : list ToolCall) : Choice :=
  mkChoice (mkChatMessage "assistant" None (Some tcs)) "tool_calls".

Definition says (text : string) : Choice :=
  mkChoice (mkChatMessage "assistant" (Some text) None) "stop".

Definition user (text : string) : Message :=
  mkMessage "user" (Some text) None None None.

Definition run_invoke (answers : list (list Choice)) (query : Query)
    (w : @World runtime string) : Result Choice * @World runtime string :=
  invoke (scripted answers) client query None false w.

(** A request for a tool that is not registered. *)
Definition time_call (id : string) (raw : option string) : ToolCall :=
  mkToolCall id (mkFunction "get_time" raw).

(** A world in which the caller holds the list object 7. *)
Definition world_with (ms : list Message) : @World runtime string :=
  mkWorld (<[7 := ms]> ∅) 0 [].

Definition weather_query : Query := QStr "What's the weather in Paris?".

Definition sunny : list (string * obj) * obj :=
  ([("city", Str "Paris")], Str "Sunny, 22C").

Definition weather_result (id : string) : Message :=
  mkMessage "tool" (Some "Sunny, 22C") (Some id) (Some "get_weather") None.

End Toy.

(** ** client.py: the registry *)

Section Registration.
Context `{PyRuntime} {Schema : Type}.

(** A Python function object: its [__name__], and what calling it does. *)
Record PyFunction := mkPyFunction {
  py_name : string;
  py_call : Callable
}.

(** [tools.create_tool_schema]: the module is not part of the sources; the
    derivation is a parameter, and it may raise. *)
Variable create_tool_schema : PyFunction → Result Schema.

(** [d[key] = value] on a dictionary in insertion order: a key that is
    present keeps its place, a new key goes to the end. *)
Fixpoint dict_setitem {V} (d : list (string * V)) (key : string) (value : V)
  : list (string * V) :=
  match d with
  | [] => [(key, value)]
  | (k, v) :: rest =>
      if String.eqb k key then (k, value) :: rest
      else (k, v) :: dict_setitem rest key value
  end.

(** [LLMClient.__init__]: [self.tools = {}]; [base_url] only configures the
    endpoint. *)
Definition __init__ (model_name : option string) : @LLMClient _ Schema :=
  mkLLMClient model_name [].

(** [add_tool]: the updated client, or the exception of the schema
    derivation, in which case [self.tools] is not assigned. *)
Definition add_tool (self : @LLMClient _ Schema) (func : PyFunction)
  : Result (@LLMClient _ Schema) :=
  match create_tool_schema func with
  | Ok schema =>
      Ok (mkLLMClient (model_name self)
            (dict_setitem (tools self) (py_name func)
               (mkToolEntry (py_call func) schema)))
  | Raise e => Raise e
  end.

(** Dispatching the request [tc] raises [e]. *)
Definition tool_call_raises (self : @LLMClient _ Schema) (tc : ToolCall)
    (e : PyExn) : Prop :=
  ∀ w, (_make_tool_call self tc w).1 = Raise e.

End Registration.

Module Examples.
Import Toy.

(** A schema derivation for the examples: the name of the function. *)
Definition name_schema (f : @PyFunction runtime) : Result string :=
  Ok (py_name f).

Definition get_weather_function : @PyFunction runtime :=
  mkPyFunction "get_weather" get_weather.

(** [def get_time(): raise OSError] *)
Definition get_time : @Callable runtime :=
  @mkCallable runtime (λ _, Raise (Raised "OSError")).

Definition get_time_function : @PyFunction runtime :=
  mkPyFunction "get_time" get_time.

(** A client on which both functions are registered. *)
Definition client2 : @LLMClient runtime string :=
  mkLLMClient None
    [("get_weather", mkToolEntry get_weather "get_weather");
     ("get_time", mkToolEntry get_time "get_time")].

Definition run_invoke2 (answers : list (list Choice)) (query : Query)
    (verbose : bool) (w : @World runtime string)
  : Result Choice * @World runtime string :=
  invoke (scripted answers) client2 query None verbose w.

(** [ping], a function with a catch-all keyword parameter: it returns
    the text pong on every call. *)
Definition ping : @Callable runtime :=
  @mkCallable runtime (λ _, Ok (Str "pong")).

(** A client on which [ping] is registered. *)
Definition client3 : @LLMClient runtime string :=
  mkLLMClient None [("ping", mkToolEntry ping "ping")].

(** A request for [ping] with the given raw arguments. *)
Definition ping_call (id : string) (raw : option string) : ToolCall :=
  mkToolCall id (mkFunction "ping" raw).

End Examples.

(** ** The conversation store *)

Section MemoryFacts.
Import Memory.

Lemma is_system_role (m : Message) : is_system m = true ↔ role m = "system".
Proof. unfold is_system. apply String.eqb_eq. Qed.

Lemma insert_system_message_cons (first : Message) (rest : list Message)
    (m : Message) :
  messages (insert_system_message (mkMemory (first :: rest)) m) =
    if is_system first then m :: rest else m :: first :: rest.
Proof.
  unfold insert_system_message, is_system; simpl.
  destruct (String.eqb (role first) "system"); reflexivity.
Qed.

Lemma insert_system_message_nil (m : Message) :
  messages (insert_system_message (mkMemory []) m) = [m].
Proof. reflexivity. Qed.

Lemma rest_clean_invariant (self : SimpleMemory) :
  rest_clean (messages self) → slot_invariant self.
Proof.
  destruct self as [ms]. unfold rest_clean, slot_invariant, system_count,
    system_first; simpl.
  destruct ms as [|first rest]; simpl; intros Hclean.
  - split; [lia|]. intros i m Hi. by rewrite lookup_nil in Hi.
  - assert (Hnone : filter (λ m, is_system m = true) rest = []).
    { induction Hclean as [|x l Hx _ IH]; [done|].
      rewrite filter_cons_False; [done|]. by rewrite Hx. }
    split.
    + rewrite filter_cons. destruct (decide _); simpl; rewrite Hnone; simpl; lia.
    + intros [|i] m Hi Hrole; [done|]. simpl in Hi.
      apply list_elem_of_lookup_2 in Hi.
      rewrite Forall_forall in Hclean. specialize (Hclean _ Hi).
      apply is_system_role in Hrole. congruence.
Qed.

Lemma step_rest_clean (self : SimpleMemory) (op : MemOp) :
  rest_clean (messages self) →
  match op with
  | OpAdd m => role m = "system" → messages self = []
  | _ => True
  end →
  rest_clean (messages (step self op)).
Proof.
  destruct self as [ms]. unfold rest_clean.
  destruct op as [m|m|]; simpl; intros Hclean Hguard.
  - destruct ms as [|first rest]; simpl in *; [constructor|].
    apply Forall_app; split; [done|]. constructor; [|constructor].
    destruct (is_system m) eqn:Hm; [|done].
    apply is_system_role in Hm. by specialize (Hguard Hm).
  - destruct ms as [|first rest].
    + rewrite insert_system_message_nil. constructor.
    + rewrite insert_system_message_cons.
      destruct (is_system first) eqn:Hfirst; simpl in *; [done|].
      by constructor.
  - constructor.
Qed.

Lemma run_rest_clean (ops : list MemOp) (self : SimpleMemory) :
  rest_clean (messages self) →
  appends_respect_slot self ops →
  rest_clean (messages (run self ops)).
Proof.
  revert self. induction ops as [|op ops IH]; intros self Hclean Hops; [done|].
  destruct Hops as [Hop Hrest]. unfold run; simpl.
  apply IH; [|done]. by apply step_rest_clean.
Qed.

(** C6 (as amended): for every Message m whose role is system and every
    state of the store, after [insert_system_message(m)] is called twice in
    succession the store has m at index 0, and its length after the second
    call is its length after the first call. *)
Theorem insert_system_message_twice (self : SimpleMemory) (m : Message) :
  role m = "system" →
  let once := insert_system_message self m in
  let twice := insert_system_message once m in
  messages twice !! 0 = Some m ∧
  length (messages twice) = length (messages once).
Proof.
  intros Hrole once twice. subst once twice.
  apply is_system_role in Hrole.
  destruct self as [[|first rest]].
  - rewrite insert_system_message_nil.
    change (insert_system_message (mkMemory []) m) with (mkMemory [m]).
    rewrite insert_system_message_cons, Hrole. done.
  - pose proof (insert_system_message_cons first rest m) as Hone.
    destruct (insert_system_message (mkMemory (first :: rest)) m) as [ms1].
    simpl in Hone. subst ms1.
    destruct (is_system first);
      rewrite insert_system_message_cons, Hrole; done.
Qed.

Lemma insert_system_message_twice_witness :
  let m := mkMessage "system" (Some "Be brief.") None None None in
  let store := mkMemory [mkMessage "user" (Some "hi") None None None] in
  messages (insert_system_message (insert_system_message store m) m) !! 0 = Some m ∧
  length (messages (insert_system_message (insert_system_message store m) m)) =
    length (messages (insert_system_message store m)).
Proof.
  intros m store. apply (insert_system_message_twice store m). reflexivity.
Defined.

(** C6, as stated, fails for a Message whose role is not system: the
    second call puts it in front of the first, and the store grows. *)
Lemma insert_system_message_twice_grows :
  let m := mkMessage "user" (Some "hi") None None None in
  let once := insert_system_message init m in
  let twice := insert_system_message once m in
  messages once = [m] ∧ messages twice = [m; m] ∧
  length (messages twice) ≠ length (messages once).
Proof. simpl. repeat split; [reflexivity .. | discriminate]. Qed.

(** C7 (as amended): from the empty store, across every sequence of
    [add_message], [insert_system_message] and [clear] in which
    [add_message] never appends a system Message behind Messages that are
    already stored, the store holds at most one Message with role system,
    and such a Message is at index 0. *)
Theorem slot_invariant_run (ops : list MemOp) :
  appends_respect_slot init ops → slot_invariant (run init ops).
Proof.
  intros Hops. apply rest_clean_invariant, run_rest_clean; [constructor|done].
Qed.

Lemma slot_invariant_run_witness :
  slot_invariant
    (run init [OpAdd (mkMessage "user" (Some "hi") None None None);
               OpInsertSystem (mkMessage "system" (Some "Be brief.") None None None);
               OpInsertSystem (mkMessage "system" (Some "Be kind.") None None None);
               OpClear;
               OpAdd (mkMessage "system" (Some "Be brief.") None None None)]).
Proof.
  apply slot_invariant_run. simpl.
  repeat split; try reflexivity; intros; discriminate.
Defined.

(** C7, as stated, fails: [add_message] does not look at the role, so a
    system Message appended after a user Message sits at index 1. *)
Lemma slot_invariant_broken_by_add_message :
  let store := run init [OpAdd (mkMessage "user" (Some "hi") None None None);
                         OpAdd (mkMessage "system" (Some "Be brief.") None None None)] in
  messages store !! 1 = Some (mkMessage "system" (Some "Be brief.") None None None) ∧
  ¬ slot_invariant store.
Proof.
  simpl. split; [reflexivity|].
  intros [_ Hfirst].
  specialize (Hfirst 1 (mkMessage "system" (Some "Be brief.") None None None)
                eq_refl eq_refl).
  discriminate.
Qed.

End MemoryFacts.

(** ** The client *)

Section ClientFacts.
Context `{PyRuntime} {Schema : Type}.
Variable endpoint : nat → Result (list Choice).

Implicit Types (self : @LLMClient _ Schema) (w : @World _ Schema).
Implicit Types (tc : ToolCall) (tcs : list ToolCall).
Implicit Types (out : @Kwargs _ * PyObj) (outs : list (@Kwargs _ * PyObj)).

(** *** One tool call *)

Lemma make_tool_call_steps self tc w :
  _make_tool_call self tc w =
    match parsed_arguments (fn_arguments (tc_function tc)) with
    | None => (Raise JSONDecodeError, w)
    | Some o =>
        match dict_get (tools self) (fn_name (tc_function tc)) with
        | None => (Raise (unknown_tool (fn_name (tc_function tc))), w)
        | Some entry =>
            match py_kwargs o with
            | None => (Raise TypeError, w)
            | Some kwargs =>
                (match fn_call (func entry) kwargs with
                 | Ok v => Ok (tc_id tc, fn_name (tc_function tc), py_str v)
                 | Raise e => Raise e
                 end,
                 mkWorld (heap w) (served w)
                   (trace w ++ [EvToolRun (fn_name (tc_function tc)) kwargs]))
            end
        end
    end.
Proof.
  unfold _make_tool_call, parsed_arguments, unknown_tool.
  destruct tc as [id [tool raw]]; simpl.
  destruct w as [h n t].
  assert (Hparse : ∀ (k : PyObj → M (string * string * string)) (o : option PyObj),
    bind (match o with Some o => ret o | None => raise JSONDecodeError end) k
      (mkWorld h n t) =
    match o with Some o => k o (mkWorld h n t) | None => (Raise JSONDecodeError, mkWorld h n t) end).
  { intros k [o|]; reflexivity. }
  destruct (truthy raw).
  - rewrite Hparse. destruct (json_loads (default "" raw)) as [o|]; [|done].
    destruct (dict_get (tools self) tool) as [entry|]; [|done].
    unfold call_with_kwargs. destruct (py_kwargs o) as [kwargs|]; [|done].
    unfold bind, emit, lift, ret; simpl.
    destruct (fn_call (func entry) kwargs); done.
  - unfold bind at 1, ret at 1.
    destruct (dict_get (tools self) tool) as [entry|]; [|done].
    unfold call_with_kwargs. destruct (py_kwargs py_empty_dict) as [kwargs|]; [|done].
    unfold bind, emit, lift, ret; simpl.
    destruct (fn_call (func entry) kwargs); done.
Qed.

Lemma make_tool_call_resolves self tc out w :
  resolves self tc out →
  _make_tool_call self tc w =
    (Ok (tc_id tc, fn_name (tc_function tc), py_str out.2),
     mkWorld (heap w) (served w)
       (trace w ++ [EvToolRun (fn_name (tc_function tc)) out.1])).
Proof.
  intros (entry & o & Hget & Hparse & Hkw & Hcall).
  rewrite make_tool_call_steps, Hparse, Hget, Hkw, Hcall. done.
Qed.

Lemma make_tool_call_ok self tc w called w' :
  _make_tool_call self tc w = (Ok called, w') →
  ∃ out, resolves self tc out.
Proof.
  rewrite make_tool_call_steps. unfold resolves.
  destruct (parsed_arguments _) as [o|] eqn:Hparse; [|done].
  destruct (dict_get _ _) as [entry|] eqn:Hget; [|done].
  destruct (py_kwargs o) as [kwargs|] eqn:Hkw; [|done].
  destruct (fn_call (func entry) kwargs) as [v|e] eqn:Hcall; [|done].
  intros _. exists (kwargs, v), entry, o. done.
Qed.

(** *** The batch of tool calls *)

(** The body of the loop of [invoke] over the requests of a response. *)
Local Abbreviation dispatch self l :=
  (λ tc : ToolCall,
     bind (_make_tool_call self tc) (λ called,
       let '(tool_call_id, tool_name, tool_result) := called in
       bind (emit (EvPrintCalled tool_name)) (λ _,
         list_append l
           (mkMessage "tool" (Some tool_result) (Some tool_call_id)
                      (Some tool_name) None)))).

Local Abbreviation extend l extra h := (alter (λ ms, ms ++ extra) l h).

Lemma extend_nil (l : nat) (h : gmap nat (list Message)) : extend l [] h = h.
Proof. apply alter_id. intros ms _. apply app_nil_r. Qed.

Lemma extend_extend (l : nat) (a b : list Message) (h : gmap nat (list Message)) :
  extend l b (extend l a h) = extend l (a ++ b) h.
Proof.
  rewrite alter_alter_eq. apply alter_ext. intros ms _; simpl.
  by rewrite app_assoc.
Qed.

Lemma dispatch_resolves self l tc out w :
  resolves self tc out →
  dispatch self l tc w =
    (Ok tt,
     mkWorld (extend l [tool_message tc out.2] (heap w)) (served w)
       (trace w ++ [EvToolRun (fn_name (tc_function tc)) out.1;
                    EvPrintCalled (fn_name (tc_function tc))])).
Proof.
  intros Hres. unfold bind at 1.
  rewrite (make_tool_call_resolves _ _ _ _ Hres).
  unfold bind, emit, list_append, tool_message; simpl.
  by rewrite <- app_assoc.
Qed.

Lemma for_each_resolved self l tcs outs : ∀ w,
  Forall2 (resolves self) tcs outs →
  for_each tcs (dispatch self l) w =
    (Ok tt,
     mkWorld (extend l (tool_messages tcs outs) (heap w)) (served w)
       (trace w ++ batch_events tcs outs)).
Proof.
  intros w Hall. revert w.
  induction Hall as [|tc out tcs outs Hres _ IH]; intros w.
  - destruct w as [h n t]; simpl. unfold ret.
    by rewrite extend_nil, app_nil_r.
  - cbn [for_each]. unfold bind at 1.
    rewrite (dispatch_resolves _ _ _ _ _ Hres), IH; simpl.
    rewrite extend_extend, <- app_assoc. done.
Qed.

Lemma for_each_ok self l tcs : ∀ w w',
  for_each tcs (dispatch self l) w = (Ok tt, w') →
  ∃ outs, Forall2 (resolves self) tcs outs.
Proof.
  induction tcs as [|tc tcs IH]; intros w w' Hrun.
  - exists []. constructor.
  - cbn [for_each] in Hrun. unfold bind at 1 in Hrun.
    destruct (dispatch self l tc w) as [[[]|e] w1] eqn:Hstep; [|done].
    unfold bind at 1 in Hstep.
    destruct (_make_tool_call self tc w) as [[called|e] w0] eqn:Hcall; [|done].
    destruct (make_tool_call_ok _ _ _ _ _ Hcall) as [out Hres].
    destruct (IH _ _ Hrun) as [outs Hall].
    exists (out :: outs). by constructor.
Qed.

Lemma for_each_app {A} (xs ys : list A) (body : A → M unit) : ∀ w,
  for_each (xs ++ ys) body w = bind (for_each xs body) (λ _, for_each ys body) w.
Proof.
  induction xs as [|x xs IH]; intros w; [done|].
  cbn [for_each app]. unfold bind.
  destruct (body x w) as [[[]|e] w1]; [|done]. rewrite IH. done.
Qed.

(** A batch whose requests resolve up to a request that names no
    registered tool, with arguments that parse. *)
Lemma for_each_unknown self l pre tc post outs o w :
  Forall2 (resolves self) pre outs →
  parsed_arguments (fn_arguments (tc_function tc)) = Some o →
  dict_get (tools self) (fn_name (tc_function tc)) = None →
  for_each (pre ++ tc :: post) (dispatch self l) w =
    (Raise (unknown_tool (fn_name (tc_function tc))),
     mkWorld (extend l (tool_messages pre outs) (heap w)) (served w)
       (trace w ++ batch_events pre outs)).
Proof.
  intros Hall Hparse Hget.
  rewrite for_each_app. unfold bind at 1.
  rewrite (for_each_resolved _ _ _ _ _ Hall).
  cbn [for_each]. unfold bind at 1 2.
  rewrite make_tool_call_steps, Hparse, Hget. done.
Qed.

(** *** One model call *)

Lemma make_llm_call_eq self l model w :
  _make_llm_call endpoint self l model w =
    (top_choice (endpoint (served w)),
     mkWorld (heap w) (S (served w))
       (trace w ++ [request self model (default [] (heap w !! l))])).
Proof.
  unfold _make_llm_call, completions_create, bind, list_read, emit,
    first_choice, top_choice, request, ret, raise; simpl.
  destruct (endpoint (served w)) as [[|c cs]|e]; reflexivity.
Qed.

(** *** [invoke] *)

Lemma extend_live (l : nat) (ms extra : list Message)
    (h : gmap nat (list Message)) :
  h !! l = Some ms → extend l extra h = <[l := ms ++ extra]> h.
Proof.
  intros Hlive. apply map_eq. intros j.
  destruct (decide (l = j)) as [<-|Hne].
  - by rewrite lookup_alter_eq, lookup_insert_eq, Hlive.
  - by rewrite lookup_alter_ne, lookup_insert_ne.
Qed.

Lemma invoke_on_eq self l model verbose w :
  invoke_on endpoint self l model verbose w =
    let sent := request self model (default [] (heap w !! l)) in
    match top_choice (endpoint (served w)) with
    | Raise e => (Raise e, mkWorld (heap w) (S (served w)) (trace w ++ [sent]))
    | Ok response =>
        match cm_tool_calls (message response) with
        | Some tcs =>
            bind (for_each tcs (dispatch self l))
              (λ _, _make_llm_call endpoint self l model)
              (mkWorld (extend l [model_dump (message response)] (heap w))
                 (S (served w)) (trace w ++ [sent]))
        | None =>
            (Ok response,
             mkWorld (heap w) (S (served w))
               (trace w ++ sent ::
                  if verbose then [EvPrintResponse (cm_content (message response))]
                  else []))
        end
    end.
Proof.
  unfold invoke_on. unfold bind at 1. rewrite make_llm_call_eq.
  destruct (top_choice (endpoint (served w))) as [response|e]; [|done].
  destruct (cm_tool_calls (message response)) as [tcs|]; simpl.
  - reflexivity.
  - destruct verbose; unfold bind, emit, ret; simpl;
      by rewrite <- ?app_assoc.
Qed.

Lemma invoke_eq self query model verbose w :
  invoke endpoint self query model verbose w =
    match query with
    | QStr q =>
        let l := fresh (dom (heap w)) in
        invoke_on endpoint self l model verbose
          (mkWorld (<[l := [mkMessage "user" (Some q) None None None]]> (heap w))
             (served w) (trace w))
    | QInstance m =>
        let l := fresh (dom (heap w)) in
        invoke_on endpoint self l model verbose
          (mkWorld (<[l := [m]]> (heap w)) (served w) (trace w))
    | QList l => invoke_on endpoint self l model verbose w
    | QDict _ | QOther =>
        (Raise (ValueError "Parameter query is of wrong type!"), w)
    end.
Proof. destruct query; reflexivity. Qed.

Lemma invoke_conversation self query model verbose w l ms :
  conversation w query = Some (l, ms) →
  invoke endpoint self query model verbose w =
    invoke_on endpoint self l model verbose
      (mkWorld (<[l := ms]> (heap w)) (served w) (trace w)).
Proof.
  rewrite invoke_eq. destruct query as [q|m|m|l'|]; simpl; try done.
  - by intros [= <- <-].
  - by intros [= <- <-].
  - destruct (heap w !! l') as [ms'|] eqn:Hlive; simpl; [|done].
    intros [= <- <-]. rewrite insert_id by done. by destruct w.
Qed.

(** A first response with tool calls that all resolve: the batch is
    dispatched and the second model call is made on the extended list. *)
Lemma invoke_on_batch_any self l model verbose w r1 rest1 tcs outs :
  endpoint (served w) = Ok (r1 :: rest1) →
  cm_tool_calls (message r1) = Some tcs →
  Forall2 (resolves self) tcs outs →
  let extra := model_dump (message r1) :: tool_messages tcs outs in
  invoke_on endpoint self l model verbose w =
    (top_choice (endpoint (S (served w))),
     mkWorld (extend l extra (heap w)) (S (S (served w)))
       (trace w ++
          request self model (default [] (heap w !! l)) ::
          batch_events tcs outs ++
          [request self model (default [] (extend l extra (heap w) !! l))])).
Proof.
  intros Hfirst Htcs Hall extra. subst extra.
  rewrite invoke_on_eq, Hfirst; simpl. rewrite Htcs.
  unfold bind at 1. rewrite (for_each_resolved _ _ _ _ _ Hall); simpl.
  rewrite make_llm_call_eq; simpl.
  rewrite extend_extend; simpl.
  by rewrite <- !app_assoc.
Qed.

Lemma invoke_on_batch self l model verbose w ms r1 rest1 tcs outs :
  heap w !! l = Some ms →
  endpoint (served w) = Ok (r1 :: rest1) →
  cm_tool_calls (message r1) = Some tcs →
  Forall2 (resolves self) tcs outs →
  let extended := ms ++ model_dump (message r1) :: tool_messages tcs outs in
  invoke_on endpoint self l model verbose w =
    (top_choice (endpoint (S (served w))),
     mkWorld (<[l := extended]> (heap w)) (S (S (served w)))
       (trace w ++
          request self model ms :: batch_events tcs outs ++
          [request self model extended])).
Proof.
  intros Hlive Hfirst Htcs Hall extended. subst extended.
  rewrite (invoke_on_batch_any _ _ _ _ _ _ _ _ _ Hfirst Htcs Hall).
  rewrite (extend_live _ _ _ _ Hlive), lookup_insert_eq, Hlive. done.
Qed.

Lemma completions_in_app (a b : list (@Event _ Schema)) :
  completions_in (a ++ b) = completions_in a + completions_in b.
Proof. unfold completions_in. by rewrite filter_app, length_app. Qed.

Lemma tool_runs_in_app (a b : list (@Event _ Schema)) :
  tool_runs_in (a ++ b) = tool_runs_in a + tool_runs_in b.
Proof. unfold tool_runs_in. by rewrite filter_app, length_app. Qed.

Lemma batch_events_counts self tcs outs :
  Forall2 (resolves self) tcs outs →
  completions_in (@batch_events _ Schema tcs outs) = 0 ∧
  tool_runs_in (@batch_events _ Schema tcs outs) = length tcs.
Proof.
  induction 1 as [|tc out tcs outs _ _ [IHc IHt]]; [done|].
  change (batch_events (tc :: tcs) (out :: outs)) with
    ([EvToolRun (fn_name (tc_function tc)) out.1;
      EvPrintCalled (fn_name (tc_function tc))] ++ @batch_events _ Schema tcs outs).
  rewrite completions_in_app, tool_runs_in_app, IHc, IHt. done.
Qed.

(** *** The properties of [invoke] and of the tool dispatch *)

(** C1 (as amended): [invoke] makes one round, it does not loop.  When the
    first model response carries tool-call requests and they all resolve,
    their tool-result Messages are appended and the model is called once
    more with the extended sequence; the response of that second call is
    returned whether or not it carries tool-call requests.  When the first
    response has no [tool_calls], it is returned at once. *)
Theorem invoke_one_round self query model verbose w l ms r1 rest1 :
  conversation w query = Some (l, ms) →
  endpoint (served w) = Ok (r1 :: rest1) →
  match cm_tool_calls (message r1) with
  | None =>
      ∃ w', invoke endpoint self query model verbose w = (Ok r1, w') ∧
            served w' = S (served w)
  | Some tcs =>
      ∀ outs r2 rest2,
        Forall2 (resolves self) tcs outs →
        endpoint (S (served w)) = Ok (r2 :: rest2) →
        let extended := ms ++ model_dump (message r1) :: tool_messages tcs outs in
        ∃ w', invoke endpoint self query model verbose w = (Ok r2, w') ∧
              served w' = S (S (served w)) ∧
              trace w' = trace w ++ request self model ms ::
                           batch_events tcs outs ++ [request self model extended]
  end.
Proof.
  intros Hconv Hfirst. rewrite (invoke_conversation _ _ _ _ _ _ _ Hconv).
  destruct (cm_tool_calls (message r1)) as [tcs|] eqn:Htcs.
  - intros outs r2 rest2 Hall Hsecond extended.
    erewrite invoke_on_batch; [|apply lookup_insert_eq|done..]; simpl.
    rewrite Hsecond. eexists; split; [reflexivity|]. done.
  - rewrite invoke_on_eq; simpl. rewrite Hfirst; simpl. rewrite Htcs.
    eexists; split; [reflexivity|]. done.
Qed.

(** C2 (as amended): for every model response whose [tool_calls] field is
    absent ([None]), [invoke] returns that response after exactly one model
    call, dispatching no tool and making no second model call. *)
Theorem invoke_single_round_trip self query model verbose w l ms r1 rest1 :
  conversation w query = Some (l, ms) →
  endpoint (served w) = Ok (r1 :: rest1) →
  cm_tool_calls (message r1) = None →
  ∃ w', invoke endpoint self query model verbose w = (Ok r1, w') ∧
        served w' = S (served w) ∧
        trace w' = trace w ++ request self model ms ::
                     (if verbose then [EvPrintResponse (cm_content (message r1))]
                      else []) ∧
        heap w' !! l = Some ms.
Proof.
  intros Hconv Hfirst Htcs. rewrite (invoke_conversation _ _ _ _ _ _ _ Hconv).
  rewrite invoke_on_eq; simpl. rewrite Hfirst; simpl. rewrite Htcs.
  eexists; split; [reflexivity|]; simpl.
  by rewrite lookup_insert_eq.
Qed.

(** C3 (as amended): when the first model response requests N tool calls
    that all name registered tools, whose raw arguments are each empty,
    absent or decode to a mapping, and whose callables return normally on
    those arguments, [invoke] appends the assistant's response Message and
    then exactly N tool-result Messages, the i-th with role tool, the i-th
    request's id and tool name, and the text of the i-th callable's result
    as content, in the order of the requests; the second model call is
    sent the sequence so extended. *)
Theorem invoke_appends_tool_results self query model verbose w l ms r1 rest1
    tcs outs :
  conversation w query = Some (l, ms) →
  endpoint (served w) = Ok (r1 :: rest1) →
  cm_tool_calls (message r1) = Some tcs →
  Forall2 (resolves self) tcs outs →
  let results := tool_messages tcs outs in
  ∃ w',
    invoke endpoint self query model verbose w =
      (top_choice (endpoint (S (served w))), w') ∧
    heap w' !! l = Some (ms ++ model_dump (message r1) :: results) ∧
    trace w' = trace w ++ request self model ms :: batch_events tcs outs ++
                 [request self model (ms ++ model_dump (message r1) :: results)] ∧
    length results = length tcs ∧
    ∀ i tc, tcs !! i = Some tc →
      ∃ out, outs !! i = Some out ∧
        results !! i =
          Some (mkMessage "tool" (Some (py_str out.2)) (Some (tc_id tc))
                          (Some (fn_name (tc_function tc))) None).
Proof.
  intros Hconv Hfirst Htcs Hall results. subst results.
  rewrite (invoke_conversation _ _ _ _ _ _ _ Hconv).
  erewrite invoke_on_batch; [|apply lookup_insert_eq|done..]; simpl.
  eexists; split; [reflexivity|]; simpl.
  split; [by rewrite lookup_insert_eq|]. split; [done|].
  pose proof (Forall2_length _ _ _ Hall) as Hlen.
  split.
  - unfold tool_messages. rewrite length_zip_with. lia.
  - intros i tc Hi.
    destruct (Forall2_lookup_l _ _ _ _ _ Hall Hi) as (out & Hout & _).
    exists out. split; [done|].
    unfold tool_messages. rewrite lookup_zip_with, Hi; simpl.
    by rewrite Hout.
Qed.

(** C4 (as amended): when, in the first model response, the requests before
    the first one that names an unregistered tool all resolve, and the raw
    arguments of that request are empty, absent or parse, [invoke] aborts
    with the unknown-tool error after one model call; the Messages appended
    are the assistant's tool-call-request Message and the tool-result
    Messages of the requests before it, and none when it is the first
    request. *)
Theorem invoke_unknown_tool self query model verbose w l ms r1 rest1
    pre tc post outs o :
  conversation w query = Some (l, ms) →
  endpoint (served w) = Ok (r1 :: rest1) →
  cm_tool_calls (message r1) = Some (pre ++ tc :: post) →
  Forall2 (resolves self) pre outs →
  parsed_arguments (fn_arguments (tc_function tc)) = Some o →
  dict_get (tools self) (fn_name (tc_function tc)) = None →
  ∃ w',
    invoke endpoint self query model verbose w =
      (Raise (unknown_tool (fn_name (tc_function tc))), w') ∧
    heap w' !! l = Some (ms ++ model_dump (message r1) :: tool_messages pre outs) ∧
    served w' = S (served w) ∧
    trace w' = trace w ++ request self model ms :: batch_events pre outs.
Proof.
  intros Hconv Hfirst Htcs Hall Hparse Hget.
  rewrite (invoke_conversation _ _ _ _ _ _ _ Hconv).
  rewrite invoke_on_eq; simpl. rewrite Hfirst; simpl. rewrite Htcs.
  unfold bind at 1.
  rewrite (for_each_unknown _ _ _ _ _ _ _ _ Hall Hparse Hget); simpl.
  eexists; split; [reflexivity|]; simpl.
  rewrite extend_extend.
  erewrite extend_live by apply lookup_insert_eq.
  rewrite !lookup_insert_eq, <- app_assoc. done.
Qed.

(** C5 (as amended): the steps of the Tool Dispatcher, in the order of the
    code.  First the raw arguments are parsed: an empty or absent payload
    is the empty mapping and never an error, a payload that does not parse
    aborts with the decoder's error whatever the tool name.  Then the tool
    name is looked up, and an absent name gives the unknown-tool error.
    Then the callable is called with the parsed arguments as keyword
    parameters, and its return value is converted to text. *)
Theorem make_tool_call_order self tc w :
  let tool_name := fn_name (tc_function tc) in
  (parsed_arguments None = Some py_empty_dict ∧
   parsed_arguments (Some "") = Some py_empty_dict ∧
   py_kwargs py_empty_dict = Some []) ∧
  _make_tool_call self tc w =
    match parsed_arguments (fn_arguments (tc_function tc)) with
    | None => (Raise JSONDecodeError, w)
    | Some o =>
        match dict_get (tools self) tool_name with
        | None => (Raise (unknown_tool tool_name), w)
        | Some entry =>
            match py_kwargs o with
            | None => (Raise TypeError, w)
            | Some kwargs =>
                (match fn_call (func entry) kwargs with
                 | Ok v => Ok (tc_id tc, tool_name, py_str v)
                 | Raise e => Raise e
                 end,
                 mkWorld (heap w) (served w)
                   (trace w ++ [EvToolRun tool_name kwargs]))
            end
        end
    end.
Proof.
  intros tool_name. split.
  - repeat split; try reflexivity. apply py_kwargs_empty.
  - apply make_tool_call_steps.
Qed.

(** C8: what [invoke] does with each shape of [query] before any model
    call.  A text becomes a new one-element list holding a user Message
    with that content, and a list is used as it is; a single Message is
    not wrapped: its run-time type is [dict], the test against the class
    [Message] fails, and [invoke] raises the error of an unsupported
    shape, as it does for any other value.  The wrapping branch is taken
    only by an object whose class is [Message] itself. *)
Theorem invoke_query_shapes self model verbose w :
  (∀ m, invoke endpoint self (QDict m) model verbose w =
          (Raise (ValueError "Parameter query is of wrong type!"), w)) ∧
  invoke endpoint self QOther model verbose w =
    (Raise (ValueError "Parameter query is of wrong type!"), w) ∧
  (∀ q, let l := fresh (dom (heap w)) in
        heap w !! l = None ∧
        invoke endpoint self (QStr q) model verbose w =
          invoke_on endpoint self l model verbose
            (mkWorld (<[l := [mkMessage "user" (Some q) None None None]]> (heap w))
               (served w) (trace w))) ∧
  (∀ l, invoke endpoint self (QList l) model verbose w =
          invoke_on endpoint self l model verbose w) ∧
  (∀ m, let l := fresh (dom (heap w)) in
        invoke endpoint self (QInstance m) model verbose w =
          invoke_on endpoint self l model verbose
            (mkWorld (<[l := [m]]> (heap w)) (served w) (trace w))).
Proof.
  repeat split; try reflexivity.
  apply not_elem_of_dom, is_fresh.
Qed.

(** What a call of [invoke] on a list object that returns has done. *)
Lemma invoke_on_ok self l model verbose w r w' :
  invoke_on endpoint self l model verbose w = (Ok r, w') →
  ∃ new r1 rest1,
    trace w' = trace w ++ new ∧
    served w' = served w + completions_in new ∧
    endpoint (served w) = Ok (r1 :: rest1) ∧
    match cm_tool_calls (message r1) with
    | None =>
        r = r1 ∧ completions_in new = 1 ∧ tool_runs_in new = 0 ∧
        heap w' = heap w
    | Some tcs =>
        top_choice (endpoint (S (served w))) = Ok r ∧
        completions_in new = 2 ∧ tool_runs_in new = length tcs ∧
        ∃ outs, Forall2 (resolves self) tcs outs ∧
          heap w' =
            extend l (model_dump (message r1) :: tool_messages tcs outs) (heap w)
    end.
Proof.
  intros Hrun. pose proof Hrun as Hrun0.
  rewrite invoke_on_eq in Hrun; simpl in Hrun.
  destruct (endpoint (served w)) as [[|r1 rest1]|e] eqn:Hfirst;
    simpl in Hrun; try done.
  destruct (cm_tool_calls (message r1)) as [tcs|] eqn:Htcs.
  - unfold bind at 1 in Hrun.
    destruct (for_each tcs _ _) as [[[]|e] w1] eqn:Hloop; [|done].
    destruct (for_each_ok _ _ _ _ _ Hloop) as [outs Hall].
    rewrite (invoke_on_batch_any _ _ _ _ _ _ _ _ _ Hfirst Htcs Hall) in Hrun0.
    injection Hrun0 as Hres Hw. subst w'; simpl.
    destruct (batch_events_counts _ _ _ Hall) as [Hc Ht].
    eexists _, r1, rest1. split; [reflexivity|].
    rewrite Htcs.
    assert (Hcount : ∀ a b (t : list (@Event _ Schema)),
      completions_in (request self model a :: t ++ [request self model b]) =
        2 + completions_in t ∧
      tool_runs_in (request self model a :: t ++ [request self model b]) =
        tool_runs_in t).
    { intros a b t.
      change (request self model a :: t ++ [request self model b]) with
        ([request self model a] ++ t ++ [request self model b]).
      rewrite !completions_in_app, !tool_runs_in_app.
      change (completions_in [request self model a]) with 1.
      change (completions_in [request self model b]) with 1.
      change (tool_runs_in [request self model a]) with 0.
      change (tool_runs_in [request self model b]) with 0.
      lia. }
    destruct (Hcount (default [] (heap w !! l))
      (default [] (extend l (model_dump (message r1) :: tool_messages tcs outs)
                     (heap w) !! l))
      (batch_events tcs outs)) as [Hc2 Ht2].
    rewrite Hc2, Ht2, Hc, Ht.
    split; [lia|]. do 4 (split; [done|]). by exists outs.
  - injection Hrun as Hres Hw. subst w' r; simpl.
    eexists _, r1, rest1. split; [reflexivity|]. rewrite Htcs.
    destruct verbose; repeat split; try reflexivity;
      unfold completions_in; simpl; lia.
Qed.

(** C9: a call of [invoke] that returns has made at most two model calls.
    If the first response has no [tool_calls] it is the result, after one
    model call and no tool dispatch.  Otherwise one batch is dispatched,
    one call per request of the first response, and the result is the
    response of the second model call as it is, whatever it carries; there
    is no third call. *)
Theorem invoke_at_most_two_model_calls self query model verbose w r w' :
  invoke endpoint self query model verbose w = (Ok r, w') →
  ∃ new r1 rest1,
    trace w' = trace w ++ new ∧
    completions_in new ≤ 2 ∧
    served w' = served w + completions_in new ∧
    endpoint (served w) = Ok (r1 :: rest1) ∧
    match cm_tool_calls (message r1) with
    | None => r = r1 ∧ completions_in new = 1 ∧ tool_runs_in new = 0
    | Some tcs =>
        top_choice (endpoint (S (served w))) = Ok r ∧
        completions_in new = 2 ∧ tool_runs_in new = length tcs
    end.
Proof.
  rewrite invoke_eq.
  destruct query as [q|m|m|l|]; try done; intros Hrun;
    apply invoke_on_ok in Hrun as (new & r1 & rest1 & Htrace & Hserved & Hfirst & Hcases);
    simpl in *; exists new, r1, rest1;
    destruct (cm_tool_calls (message r1)) as [tcs|];
    destruct Hcases as (Hres & Hc & Ht & _);
    split_and!; try done; lia.
Qed.

(** C10 (as amended): when [invoke] is called with a list object, that
    object is the conversation sequence.  After a call that returns, if the
    [tool_calls] of the first model response is not [None] (an empty list
    included), the caller's list holds its former contents followed by the
    assistant Message and the tool-result Messages of all the requests, in
    order; if it is [None], the list is unchanged.  No other list object
    changes. *)
Theorem invoke_list_in_place self l ms model verbose w r w' :
  heap w !! l = Some ms →
  invoke endpoint self (QList l) model verbose w = (Ok r, w') →
  ∃ new r1 rest1,
    endpoint (served w) = Ok (r1 :: rest1) ∧
    trace w' = trace w ++ request self model ms :: new ∧
    (∀ l', l' ≠ l → heap w' !! l' = heap w !! l') ∧
    match cm_tool_calls (message r1) with
    | None => heap w' !! l = Some ms
    | Some tcs =>
        ∃ outs, Forall2 (resolves self) tcs outs ∧
          heap w' !! l =
            Some (ms ++ model_dump (message r1) :: tool_messages tcs outs)
    end.
Proof.
  intros Hlive Hrun. rewrite invoke_eq in Hrun. pose proof Hrun as Hrun0.
  apply invoke_on_ok in Hrun as (new & r1 & rest1 & _ & _ & Hfirst & Hcases).
  destruct (cm_tool_calls (message r1)) as [tcs|] eqn:Htcs.
  - destruct Hcases as (_ & _ & _ & outs & Hall & Hheap).
    rewrite (invoke_on_batch _ _ _ _ _ _ _ _ _ _ Hlive Hfirst Htcs Hall) in Hrun0.
    injection Hrun0 as _ Hw. subst w'; simpl.
    eexists _, r1, rest1. rewrite Htcs.
    split; [done|]. split; [reflexivity|]. split.
    + intros l' Hne. by rewrite lookup_insert_ne.
    + exists outs. split; [done|]. by rewrite lookup_insert_eq.
  - destruct Hcases as (_ & _ & _ & Hheap).
    rewrite invoke_on_eq in Hrun0; simpl in Hrun0.
    rewrite Hfirst in Hrun0; simpl in Hrun0. rewrite Htcs, Hlive in Hrun0.
    injection Hrun0 as _ Hw. subst w'; simpl.
    eexists _, r1, rest1. rewrite Htcs. done.
Qed.

End ClientFacts.

(** ** The scenarios *)

Section Scenarios.
Import Toy.

Lemma weather_call_resolves (id : string) :
  resolves client (weather_call id) sunny.
Proof.
  exists (mkToolEntry get_weather "get_weather(city: str)"),
         (Dict [("city", "Paris")]).
  split_and!; reflexivity.
Qed.

(** C1, as stated, fails: the second response is returned although it
    carries a tool-call request, and the model is not called a third time. *)
Lemma invoke_returns_pending_request :
  let answers := [[asks [weather_call "call_1"]];
                  [asks [weather_call "call_2"]];
                  [says "It is sunny."]] in
  let run := run_invoke answers weather_query world0 in
  run.1 = Ok (asks [weather_call "call_2"]) ∧
  cm_tool_calls (message (asks [weather_call "call_2"])) =
    Some [weather_call "call_2"] ∧
  served run.2 = 2 ∧
  completions_in (trace run.2) = 2.
Proof. vm_compute. split_and!; reflexivity. Qed.

Lemma invoke_one_round_witness :
  let answers := [[asks [weather_call "call_1"]];
                  [asks [weather_call "call_2"]]] in
  let asked := user "What's the weather in Paris?" in
  let extended := [asked; model_dump (message (asks [weather_call "call_1"]));
                   weather_result "call_1"] in
  ∃ w', run_invoke answers weather_query world0 =
          (Ok (asks [weather_call "call_2"]), w') ∧
        served w' = 2 ∧
        trace w' = [request client None [asked];
                    @EvToolRun runtime _ "get_weather" [("city", Str "Paris")];
                    EvPrintCalled "get_weather";
                    request client None extended].
Proof.
  intros answers asked extended.
  apply (invoke_one_round (scripted answers) client weather_query None false
           world0 (fresh (dom (heap world0))) [asked]
           (asks [weather_call "call_1"]) [] eq_refl eq_refl
           [sunny] (asks [weather_call "call_2"]) []).
  - constructor; [apply weather_call_resolves | constructor].
  - reflexivity.
Defined.

(** C2, as stated, fails for an empty list of tool calls: the assistant
    Message is appended and the model is called a second time. *)
Lemma invoke_empty_tool_calls_second_call :
  let run := run_invoke [[asks []]; [says "Hello."]] (QStr "hi") world0 in
  run.1 = Ok (says "Hello.") ∧
  run.1 ≠ Ok (asks []) ∧
  served run.2 = 2 ∧
  completions_in (trace run.2) = 2 ∧
  heap run.2 !! 0 = Some [user "hi"; model_dump (message (asks []))].
Proof. vm_compute. split_and!; try reflexivity. discriminate. Qed.

Lemma invoke_single_round_trip_witness :
  ∃ w', run_invoke [[says "4"]] (QStr "2+2?") world0 = (Ok (says "4"), w') ∧
        served w' = 1 ∧
        trace w' = [request client None [user "2+2?"]] ∧
        heap w' !! 0 = Some [user "2+2?"].
Proof.
  apply (invoke_single_round_trip (scripted [[says "4"]]) client (QStr "2+2?")
           None false world0 (fresh (dom (heap world0))) [user "2+2?"]
           (says "4") [] eq_refl eq_refl eq_refl).
Defined.

Lemma invoke_appends_tool_results_witness :
  let answers := [[asks [weather_call "call_1"; weather_call "call_2"]];
                  [says "It is sunny."]] in
  let asked := user "What's the weather in Paris?" in
  let assistant :=
    model_dump (message (asks [weather_call "call_1"; weather_call "call_2"])) in
  let results := [weather_result "call_1"; weather_result "call_2"] in
  ∃ w', run_invoke answers weather_query world0 = (Ok (says "It is sunny."), w') ∧
        heap w' !! 0 = Some (asked :: assistant :: results) ∧
        trace w' = [request client None [asked];
                    @EvToolRun runtime _ "get_weather" [("city", Str "Paris")];
                    EvPrintCalled "get_weather";
                    @EvToolRun runtime _ "get_weather" [("city", Str "Paris")];
                    EvPrintCalled "get_weather";
                    request client None (asked :: assistant :: results)] ∧
        length results = 2 ∧
        ∀ i tc, [weather_call "call_1"; weather_call "call_2"] !! i = Some tc →
          ∃ out, [sunny; sunny] !! i = Some out ∧
            results !! i =
              Some (mkMessage "tool" (Some (str out.2)) (Some (tc_id tc))
                              (Some (fn_name (tc_function tc))) None).
Proof.
  intros answers asked assistant results.
  apply (invoke_appends_tool_results (scripted answers) client weather_query
           None false world0 (fresh (dom (heap world0))) [asked]
           (asks [weather_call "call_1"; weather_call "call_2"]) []
           [weather_call "call_1"; weather_call "call_2"] [sunny; sunny]
           eq_refl eq_refl eq_refl).
  repeat constructor; apply weather_call_resolves.
Defined.

(** C4, as stated, fails when a request that resolves comes before the
    one that names an unregistered tool: its tool-result Message is
    appended after the assistant's Message before [invoke] aborts. *)
Lemma invoke_unknown_tool_after_result :
  let first := asks [weather_call "call_1"; time_call "call_2" None] in
  let run := run_invoke [[first]; [says "It is sunny."]] weather_query world0 in
  dict_get (tools client) "get_time" = None ∧
  run.1 = Raise (unknown_tool "get_time") ∧
  heap run.2 !! 0 =
    Some [user "What's the weather in Paris?"; model_dump (message first);
          weather_result "call_1"].
Proof. split_and!; [reflexivity | vm_compute; reflexivity ..]. Qed.

Lemma invoke_unknown_tool_witness :
  let first := asks [time_call "call_1" None; weather_call "call_2"] in
  let asked := user "What's the weather in Paris?" in
  ∃ w', run_invoke [[first]; [says "It is noon."]] weather_query world0 =
          (Raise (unknown_tool "get_time"), w') ∧
        heap w' !! 0 = Some [asked; model_dump (message first)] ∧
        served w' = 1 ∧
        trace w' = [request client None [asked]].
Proof.
  intros first asked.
  apply (invoke_unknown_tool (scripted [[first]; [says "It is noon."]]) client
           weather_query None false world0 (fresh (dom (heap world0))) [asked]
           first [] [] (time_call "call_1" None) [weather_call "call_2"] []
           (Dict []) eq_refl eq_refl eq_refl);
    [constructor | reflexivity | reflexivity].
Defined.

(** C5, as stated, fails: the arguments are parsed before the name is
    looked up, so an unregistered name with a payload that does not parse
    gives the decoder's error, not the unknown-tool error. *)
Lemma make_tool_call_parses_first :
  dict_get (tools client) "get_time" = None ∧
  @json_loads runtime "{" = None ∧
  (_make_tool_call client (time_call "call_1" (Some "{")) world0).1 =
    Raise JSONDecodeError ∧
  (_make_tool_call client (time_call "call_1" (Some "{")) world0).1 ≠
    Raise (unknown_tool "get_time").
Proof.
  split_and!; [reflexivity | vm_compute; reflexivity ..|].
  vm_compute. discriminate.
Qed.

(** C8 at a single Message: no model call is made and [invoke] raises. *)
Lemma invoke_message_query_raises :
  run_invoke [[says "Hello."]] (QDict (user "hi")) world0 =
    (Raise (ValueError "Parameter query is of wrong type!"), world0).
Proof. reflexivity. Qed.

Lemma invoke_at_most_two_model_calls_witness :
  let answers := [[asks [weather_call "call_1"]];
                  [asks [weather_call "call_2"]];
                  [says "It is sunny."]] in
  let run := run_invoke answers weather_query world0 in
  ∃ new r1 rest1,
    trace run.2 = [] ++ new ∧
    completions_in new ≤ 2 ∧
    served run.2 = 0 + completions_in new ∧
    scripted answers 0 = Ok (r1 :: rest1) ∧
    match cm_tool_calls (message r1) with
    | None =>
        asks [weather_call "call_2"] = r1 ∧ completions_in new = 1 ∧
        tool_runs_in new = 0
    | Some tcs =>
        top_choice (scripted answers 1) = Ok (asks [weather_call "call_2"]) ∧
        completions_in new = 2 ∧ tool_runs_in new = length tcs
    end.
Proof.
  intros answers run.
  apply (invoke_at_most_two_model_calls (scripted answers) client weather_query
           None false world0 (asks [weather_call "call_2"]) run.2).
  assert (Hresult : run.1 = Ok (asks [weather_call "call_2"]))
    by (vm_compute; reflexivity).
  rewrite <- Hresult. apply surjective_pairing.
Defined.

(** C10, as stated, fails for a first response whose list of tool calls is
    empty: it carries no tool call, and yet the assistant Message is
    appended to the caller's list. *)
Lemma invoke_list_changed_without_tool_calls :
  let held := [user "hi"] in
  let run := run_invoke [[asks []]; [says "Hello."]] (QList 7) (world_with held) in
  cm_tool_calls (message (asks [])) = Some [] ∧
  run.1 = Ok (says "Hello.") ∧
  heap run.2 !! 7 = Some [user "hi"; model_dump (message (asks []))] ∧
  heap run.2 !! 7 ≠ Some held.
Proof.
  split_and!; [reflexivity | vm_compute; reflexivity ..|].
  vm_compute. discriminate.
Qed.

Lemma invoke_list_in_place_witness :
  let held := [user "hi"; user "What's the weather in Paris?"] in
  let first := asks [weather_call "call_1"] in
  let run := run_invoke [[first]; [says "It is sunny."]] (QList 7) (world_with held) in
  ∃ new r1 rest1,
    scripted [[first]; [says "It is sunny."]] 0 = Ok (r1 :: rest1) ∧
    trace run.2 = [] ++ request client None held :: new ∧
    (∀ l', l' ≠ 7 → heap run.2 !! l' = heap (world_with held) !! l') ∧
    match cm_tool_calls (message r1) with
    | None => heap run.2 !! 7 = Some held
    | Some tcs =>
        ∃ outs, Forall2 (resolves client) tcs outs ∧
          heap run.2 !! 7 =
            Some (held ++ model_dump (message r1) :: tool_messages tcs outs)
    end.
Proof.
  intros held first run.
  apply (invoke_list_in_place (scripted [[first]; [says "It is sunny."]]) client
           7 held None false (world_with held) (says "It is sunny.") run.2).
  - reflexivity.
  - assert (Hresult : run.1 = Ok (says "It is sunny."))
      by (vm_compute; reflexivity).
    rewrite <- Hresult. apply surjective_pairing.
Defined.

End Scenarios.

(** ** More on the conversation store *)

Section MemoryMore.
Import Memory.

Lemma insert_system_message_shape (self : SimpleMemory) (m : Message) :
  messages (insert_system_message self m) =
    m :: match messages self with
         | first :: rest => if is_system first then rest else first :: rest
         | [] => []
         end.
Proof.
  destruct self as [[|first rest]]; [reflexivity|].
  rewrite insert_system_message_cons; simpl. by destruct (is_system first).
Qed.

(** X1: messages added with [add_message] are read back in the order of
    the calls, after the messages that were already stored. *)
Theorem add_message_sequence (self : SimpleMemory) (ms : list Message) :
  messages (run self (OpAdd <$> ms)) = messages self ++ ms.
Proof.
  revert self. induction ms as [|m ms IH]; intros self.
  - by rewrite app_nil_r.
  - change (run self (OpAdd <$> m :: ms))
      with (run (add_message self m) (OpAdd <$> ms)).
    rewrite IH. simpl. by rewrite <- app_assoc.
Qed.

(** X2: the system slot keeps the last write: after a system Message was
    inserted, a second [insert_system_message] gives the store that the
    second call alone would give. *)
Theorem insert_system_message_overwrites (self : SimpleMemory)
    (m1 m2 : Message) :
  role m1 = "system" →
  insert_system_message (insert_system_message self m1) m2 =
    insert_system_message self m2.
Proof.
  intros Hrole. apply is_system_role in Hrole.
  assert (Heq : ∀ a b : SimpleMemory, messages a = messages b → a = b).
  { intros [a] [b]; simpl. by intros ->. }
  apply Heq.
  rewrite (insert_system_message_shape (insert_system_message self m1) m2).
  rewrite !insert_system_message_shape, Hrole. done.
Qed.

Lemma insert_system_message_overwrites_witness :
  let m1 := mkMessage "system" (Some "Be brief.") None None None in
  let m2 := mkMessage "system" (Some "Be kind.") None None None in
  let store := mkMemory [mkMessage "user" (Some "hi") None None None] in
  insert_system_message (insert_system_message store m1) m2 =
    insert_system_message store m2.
Proof.
  intros m1 m2 store. apply (insert_system_message_overwrites store m1 m2).
  reflexivity.
Defined.

(** X3: whatever the store and the Message, [insert_system_message] puts
    the Message at index 0, keeps every stored Message that is not a
    system Message, in order, behind it, and makes the store at most one
    Message longer. *)
Theorem insert_system_message_keeps_turns (self : SimpleMemory) (m : Message) :
  let after := insert_system_message self m in
  messages after !! 0 = Some m ∧
  filter (λ x, is_system x = false) (drop 1 (messages after)) =
    filter (λ x, is_system x = false) (messages self) ∧
  length (messages self) ≤ length (messages after) ≤ length (messages self) + 1.
Proof.
  intros after. subst after. rewrite insert_system_message_shape.
  destruct (messages self) as [|first rest]; simpl.
  - repeat split; lia.
  - destruct (is_system first) eqn:Hfirst; simpl.
    + rewrite (filter_cons_False _ first) by (by rewrite Hfirst).
      repeat split; lia.
    + repeat split; lia.
Qed.

(** X4: [clear] forgets the history: a run that contains a [clear] ends in
    the store that the operations after the last [clear] build from the
    empty store. *)
Theorem clear_forgets (self : SimpleMemory) (before after : list MemOp) :
  run self (before ++ OpClear :: after) = run init after.
Proof. unfold run. by rewrite foldl_app. Qed.

(** X5: on a store built by a run in which [add_message] never appends a
    system Message to a non-empty store, inserting a system Message leaves
    exactly one system Message in the store: the inserted one, at index 0. *)
Theorem insert_system_message_single (ops : list MemOp) (m : Message) :
  appends_respect_slot init ops →
  role m = "system" →
  let store := insert_system_message (run init ops) m in
  system_count store = 1 ∧
  messages store !! 0 = Some m ∧
  ∀ i x, messages store !! i = Some x → role x = "system" → i = 0 ∧ x = m.
Proof.
  intros Hops Hrole store.
  assert (Hclean : rest_clean (messages store)).
  { apply (step_rest_clean (run init ops) (OpInsertSystem m)); [|done].
    apply run_rest_clean; [constructor|done]. }
  destruct (rest_clean_invariant store Hclean) as [_ Hfirst].
  assert (Hhead : messages store !! 0 = Some m).
  { subst store. by rewrite insert_system_message_shape. }
  split_and!; [|done|].
  - unfold system_count. unfold rest_clean in Hclean.
    destruct (messages store) as [|x rest]; [done|].
    injection Hhead as ->. simpl in Hclean.
    rewrite filter_cons_True by (by apply is_system_role).
    assert (Hnone : filter (λ m, is_system m = true) rest = []).
    { induction Hclean as [|y l Hy _ IH]; [done|].
      rewrite filter_cons_False; [done|]. by rewrite Hy. }
    by rewrite Hnone.
  - intros i x Hi Hx. pose proof (Hfirst i x Hi Hx) as ->.
    split; [done|]. congruence.
Qed.

Lemma insert_system_message_single_witness :
  let m := mkMessage "system" (Some "Be brief.") None None None in
  let ops := [OpInsertSystem (mkMessage "system" (Some "Be kind.") None None None);
              OpAdd (mkMessage "user" (Some "hi") None None None)] in
  let store := insert_system_message (run init ops) m in
  system_count store = 1 ∧
  messages store !! 0 = Some m ∧
  ∀ i x, messages store !! i = Some x → role x = "system" → i = 0 ∧ x = m.
Proof.
  intros m ops. apply (insert_system_message_single ops m).
  - simpl. repeat split; intros; discriminate.
  - reflexivity.
Defined.

End MemoryMore.

(** ** The registry *)

Section RegistryFacts.
Context `{PyRuntime} {Schema : Type}.
Variable create_tool_schema : PyFunction → Result Schema.

Implicit Types (self : @LLMClient _ Schema) (f g : PyFunction).

Lemma dict_get_setitem_eq {V} (d : list (string * V)) (k : string) (v : V) :
  dict_get (dict_setitem d k v) k = Some v.
Proof.
  induction d as [|[k' v'] d IH]; simpl.
  - by rewrite String.eqb_refl.
  - destruct (String.eqb k' k) eqn:Hk; simpl; by rewrite Hk.
Qed.

Lemma dict_get_setitem_ne {V} (d : list (string * V)) (k k' : string) (v : V) :
  k ≠ k' → dict_get (dict_setitem d k v) k' = dict_get d k'.
Proof.
  intros Hne. induction d as [|[k0 v0] d IH]; simpl.
  - by apply String.eqb_neq in Hne as ->.
  - destruct (String.eqb k0 k) eqn:Hk; simpl.
    + apply String.eqb_eq in Hk as ->.
      by apply String.eqb_neq in Hne as ->.
    + by rewrite IH.
Qed.

Lemma dict_setitem_keys {V} (d : list (string * V)) (k : string) (v : V) :
  (dict_setitem d k v).*1 =
    if decide (k ∈ d.*1) then d.*1 else d.*1 ++ [k].
Proof.
  induction d as [|[k0 v0] d IH]; csimpl.
  - done.
  - destruct (String.eqb k0 k) eqn:Hk; csimpl.
    + apply String.eqb_eq in Hk as ->.
      rewrite decide_True by apply list_elem_of_here. done.
    + apply String.eqb_neq in Hk. rewrite IH.
      destruct (decide (k ∈ d.*1)) as [Hin|Hout];
        [rewrite decide_True by (by apply list_elem_of_further)
        |rewrite decide_False by (by intros [->|?]%elem_of_cons)];
        done.
Qed.

Lemma dict_setitem_setitem {V} (d : list (string * V)) (k : string) (v1 v2 : V) :
  dict_setitem (dict_setitem d k v1) k v2 = dict_setitem d k v2.
Proof.
  induction d as [|[k0 v0] d IH]; simpl.
  - by rewrite String.eqb_refl.
  - destruct (String.eqb k0 k) eqn:Hk; simpl; rewrite Hk; [done|].
    by rewrite IH.
Qed.

Lemma add_tool_ok self f self' :
  add_tool create_tool_schema self f = Ok self' →
  ∃ schema,
    create_tool_schema f = Ok schema ∧
    self' = mkLLMClient (model_name self)
              (dict_setitem (tools self) (py_name f)
                 (mkToolEntry (py_call f) schema)).
Proof.
  unfold add_tool. destruct (create_tool_schema f) as [schema|e]; [|done].
  intros [= <-]. by exists schema.
Qed.

(** X6: after [add_tool(func)] the registry binds the name of [func] to its
    callable and to the schema derived for it; every other name is bound
    as before, and the model name of the client is unchanged. *)
Theorem add_tool_lookup self f self' :
  add_tool create_tool_schema self f = Ok self' →
  ∃ schema,
    create_tool_schema f = Ok schema ∧
    dict_get (tools self') (py_name f) = Some (mkToolEntry (py_call f) schema) ∧
    (∀ n, n ≠ py_name f → dict_get (tools self') n = dict_get (tools self) n) ∧
    model_name self' = model_name self.
Proof.
  intros (schema & Hschema & ->)%add_tool_ok. exists schema; simpl.
  split_and!; [done|apply dict_get_setitem_eq| |done].
  intros n Hne. by apply dict_get_setitem_ne.
Qed.

(** X7: [add_tool] keeps the registry a dictionary in registration order:
    a name that is already registered keeps its place, a new name goes to
    the end, and no name occurs twice. *)
Theorem add_tool_keys self f self' :
  add_tool create_tool_schema self f = Ok self' →
  (tools self').*1 =
    (if decide (py_name f ∈ (tools self).*1) then (tools self).*1
     else (tools self).*1 ++ [py_name f]) ∧
  (NoDup (tools self).*1 → NoDup (tools self').*1).
Proof.
  intros (schema & _ & ->)%add_tool_ok; simpl.
  rewrite dict_setitem_keys. split; [done|].
  intros Hnodup. destruct (decide _) as [Hin|Hout]; [done|].
  apply NoDup_app. split_and!; [done| |apply NoDup_singleton].
  intros x Hx ->%list_elem_of_singleton. done.
Qed.

(** X8: registering a second function under a name that was just
    registered overwrites the first silently: the client is the one that
    registering the second function alone gives. *)
Theorem add_tool_overwrites self f g after_f :
  add_tool create_tool_schema self f = Ok after_f →
  py_name g = py_name f →
  add_tool create_tool_schema after_f g = add_tool create_tool_schema self g.
Proof.
  intros (schema & _ & ->)%add_tool_ok Hname.
  unfold add_tool; simpl. rewrite Hname.
  destruct (create_tool_schema g) as [schema'|e]; [|done].
  by rewrite dict_setitem_setitem.
Qed.

(** X9: a function registered with [add_tool] is the one that a request
    for its name runs: when the raw arguments parse to a mapping, the
    dispatcher calls that function with them, never raises the
    unknown-tool error, and returns the request's id, the name and the
    text of the result. *)
Theorem add_tool_then_dispatch self f self' tc o kwargs
    (w : @World _ Schema) :
  add_tool create_tool_schema self f = Ok self' →
  fn_name (tc_function tc) = py_name f →
  parsed_arguments (fn_arguments (tc_function tc)) = Some o →
  py_kwargs o = Some kwargs →
  _make_tool_call self' tc w =
    (match fn_call (py_call f) kwargs with
     | Ok v => Ok (tc_id tc, py_name f, py_str v)
     | Raise e => Raise e
     end,
     mkWorld (heap w) (served w) (trace w ++ [EvToolRun (py_name f) kwargs])).
Proof.
  intros (schema & _ & ->)%add_tool_ok Hname Hparse Hkw.
  rewrite make_tool_call_steps, Hparse, Hname; simpl.
  by rewrite dict_get_setitem_eq, Hkw.
Qed.

End RegistryFacts.

(** ** More on the client: what holds whatever the outcome *)

Section ClientMore.
Context `{PyRuntime} {Schema : Type}.
Variable endpoint : nat → Result (list Choice).

Implicit Types (self : @LLMClient _ Schema) (w : @World _ Schema).
Implicit Types (tc : ToolCall) (tcs : list ToolCall).
Implicit Types (evs new : list (@Event _ Schema)).

Local Abbreviation dispatch self l :=
  (λ tc : ToolCall,
     bind (_make_tool_call self tc) (λ called,
       let '(tool_call_id, tool_name, tool_result) := called in
       bind (emit (EvPrintCalled tool_name)) (λ _,
         list_append l
           (mkMessage "tool" (Some tool_result) (Some tool_call_id)
                      (Some tool_name) None)))).

Local Abbreviation extend l extra h := (alter (λ ms, ms ++ extra) l h).

Local Abbreviation quiet evs := (Forall (λ e, is_completion e = false) evs).

(** The tool-call requests of the first response of a run from [w]. *)
Local Abbreviation requested w :=
  (match top_choice (endpoint (served w)) with
   | Ok r1 => default [] (cm_tool_calls (message r1))
   | Raise _ => []
   end).

Lemma world_eta w : mkWorld (heap w) (served w) (trace w) = w.
Proof. by destruct w. Qed.

Lemma quiet_completions evs : quiet evs → completions_in evs = 0.
Proof.
  unfold completions_in. induction 1 as [|e evs He _ IH]; [done|].
  rewrite filter_cons_False; [done|]. by rewrite He.
Qed.

Lemma tool_call_world self tc w :
  ∃ evs,
    (_make_tool_call self tc w).2 =
      mkWorld (heap w) (served w) (trace w ++ evs) ∧
    (evs = [] ∨ ∃ kwargs, evs = [EvToolRun (fn_name (tc_function tc)) kwargs]) ∧
    (dict_get (tools self) (fn_name (tc_function tc)) = None → evs = []) ∧
    (parsed_arguments (fn_arguments (tc_function tc)) = None → evs = []).
Proof.
  rewrite make_tool_call_steps.
  assert (Hsame : ∃ evs,
    w = mkWorld (heap w) (served w) (trace w ++ evs) ∧
    (evs = [] ∨ ∃ kwargs, evs = [EvToolRun (fn_name (tc_function tc)) kwargs]) ∧
    (dict_get (tools self) (fn_name (tc_function tc)) = None → evs = []) ∧
    (parsed_arguments (fn_arguments (tc_function tc)) = None → evs = [])).
  { exists []. rewrite app_nil_r, world_eta. split_and!; auto. }
  destruct (parsed_arguments _) as [o|]; [|done].
  destruct (dict_get _ _) as [entry|]; [|done].
  destruct (py_kwargs o) as [kwargs|]; [|done].
  exists [EvToolRun (fn_name (tc_function tc)) kwargs]; simpl.
  split_and!; [done|right; by exists kwargs|done|done].
Qed.

(** X10: the dispatcher does not touch the conversation or the endpoint:
    whatever a tool call returns or raises, the list objects and the count
    of completions are as before.  The callable is run at most once, and
    not at all when the name is not registered or the arguments do not
    parse. *)
Theorem make_tool_call_frame self tc w :
  let after := (_make_tool_call self tc w).2 in
  heap after = heap w ∧
  served after = served w ∧
  ∃ evs,
    trace after = trace w ++ evs ∧
    (evs = [] ∨ ∃ kwargs, evs = [EvToolRun (fn_name (tc_function tc)) kwargs]) ∧
    (dict_get (tools self) (fn_name (tc_function tc)) = None → evs = []) ∧
    (parsed_arguments (fn_arguments (tc_function tc)) = None → evs = []).
Proof.
  intros after. subst after.
  destruct (tool_call_world self tc w) as (evs & -> & Hevs & Hget & Hparse).
  simpl. split_and!; [done..|]. by exists evs.
Qed.

Lemma dispatch_world self l tc w :
  ∃ extra evs,
    (dispatch self l tc w).2 =
      mkWorld (extend l extra (heap w)) (served w) (trace w ++ evs) ∧
    quiet evs ∧ tool_runs_in evs ≤ 1 ∧ length extra ≤ 1.
Proof.
  unfold bind at 1. rewrite make_tool_call_steps.
  assert (Hsame : ∃ extra evs,
    w = mkWorld (extend l extra (heap w)) (served w) (trace w ++ evs) ∧
    quiet evs ∧ tool_runs_in evs ≤ 1 ∧ length extra ≤ 1).
  { exists [], []. rewrite extend_nil, app_nil_r, world_eta.
    split_and!; first [done | by constructor | simpl; lia]. }
  destruct (parsed_arguments _) as [o|]; [|done].
  destruct (dict_get _ _) as [entry|]; [|done].
  destruct (py_kwargs o) as [kwargs|]; [|done].
  destruct (fn_call (func entry) kwargs) as [v|e]; simpl.
  - eexists [_], [_; _]. unfold bind, emit, list_append; simpl.
    rewrite <- app_assoc.
    split_and!;
      [reflexivity | by repeat constructor | by vm_compute | simpl; lia].
  - eexists [], [_]. rewrite extend_nil.
    split_and!;
      [reflexivity | by repeat constructor | by vm_compute | simpl; lia].
Qed.

Lemma for_each_world self l tcs : ∀ w,
  ∃ extra evs,
    (for_each tcs (dispatch self l) w).2 =
      mkWorld (extend l extra (heap w)) (served w) (trace w ++ evs) ∧
    quiet evs ∧ tool_runs_in evs ≤ length tcs ∧ length extra ≤ length tcs.
Proof.
  induction tcs as [|tc tcs IH]; intros w.
  - exists [], []. simpl. rewrite extend_nil, app_nil_r, world_eta.
    split_and!; first [done | by constructor | simpl; lia].
  - cbn [for_each]. unfold bind at 1.
    destruct (dispatch_world self l tc w)
      as (extra1 & evs1 & Hw1 & Hq1 & Ht1 & Hl1).
    destruct (dispatch self l tc w) as [[[]|e] w1]; simpl in Hw1; subst w1.
    + destruct (IH (mkWorld (extend l extra1 (heap w)) (served w)
                      (trace w ++ evs1)))
        as (extra2 & evs2 & -> & Hq2 & Ht2 & Hl2); simpl.
      exists (extra1 ++ extra2), (evs1 ++ evs2).
      rewrite extend_extend, <- app_assoc, tool_runs_in_app, length_app.
      split_and!; [done|by apply Forall_app|lia|lia].
    + exists extra1, evs1; simpl. split_and!; [done|done|lia|lia].
Qed.

Local Abbreviation asks_model self model evs :=
  (Forall (λ e, is_completion e = true → ∃ sent, e = request self model sent) evs).

Lemma quiet_asks_model self model evs : quiet evs → asks_model self model evs.
Proof.
  intros Hq. eapply Forall_impl; [exact Hq|].
  intros e He Hc. simpl in *. congruence.
Qed.

Lemma request_asks_model self model sent :
  asks_model self model [request self model sent].
Proof. constructor; [|constructor]. intros _. by exists sent. Qed.

Lemma completions_in_request self model sent :
  completions_in [request self model sent] = 1 ∧
  tool_runs_in [request self model sent] = 0.
Proof. done. Qed.

(** A run of [invoke] on a list object, whatever its outcome. *)
Lemma invoke_on_world self l model verbose w :
  ∃ extra new,
    (invoke_on endpoint self l model verbose w).2 =
      mkWorld (extend l extra (heap w)) (served w + completions_in new)
        (trace w ++ new) ∧
    1 ≤ completions_in new ≤ 2 ∧
    asks_model self model new ∧
    tool_runs_in new ≤ length (requested w).
Proof.
  rewrite invoke_on_eq; simpl.
  set (sent := request self model (default [] (heap w !! l))).
  destruct (completions_in_request self model (default [] (heap w !! l)))
    as [Hc1 Ht1]. fold sent in Hc1, Ht1.
  destruct (top_choice (endpoint (served w))) as [r1|e].
  2:{ exists [], [sent]. rewrite extend_nil, Hc1, Ht1, Nat.add_1_r.
      split_and!; [done|lia|lia|apply request_asks_model|simpl; lia]. }
  destruct (cm_tool_calls (message r1)) as [tcs|]; simpl.
  2:{ exists [], (sent :: if verbose
                          then [EvPrintResponse (cm_content (message r1))] else []).
      rewrite extend_nil.
      assert (Hp : ∀ c : option string,
        completions_in [sent; EvPrintResponse c] = 1 ∧
        tool_runs_in [sent; EvPrintResponse c] = 0) by done.
      destruct (Hp (cm_content (message r1))) as [Hc2 Ht2].
      destruct verbose; rewrite ?Hc1, ?Ht1, ?Hc2, ?Ht2, Nat.add_1_r;
        (split_and!; [done | lia | lia | | lia]).
      - constructor; [intros _; by eexists|]. constructor; [done|constructor].
      - apply request_asks_model. }
  unfold bind at 1.
  destruct (for_each_world self l tcs
              (mkWorld (extend l [model_dump (message r1)] (heap w))
                 (S (served w)) (trace w ++ [sent])))
    as (extra & evs & Hw1 & Hq & Ht & _).
  simpl in Hw1. rewrite extend_extend, <- app_assoc in Hw1.
  pose proof (quiet_completions _ Hq) as Hc.
  destruct (for_each tcs _ _) as [[[]|e] w1]; simpl in Hw1; subst w1.
  - rewrite make_llm_call_eq; simpl.
    set (again := request self model _).
    exists ([model_dump (message r1)] ++ extra), ([sent] ++ evs ++ [again]).
    rewrite <- !app_assoc, !completions_in_app, !tool_runs_in_app, Hc, Hc1, Ht1.
    change (completions_in [again]) with 1.
    change (tool_runs_in [again]) with 0.
    split_and!; [f_equal; lia|lia|lia| |lia].
    apply Forall_app. split; [apply request_asks_model|].
    apply Forall_app. split; [by apply quiet_asks_model|apply request_asks_model].
  - exists ([model_dump (message r1)] ++ extra), ([sent] ++ evs).
    rewrite !completions_in_app, !tool_runs_in_app, Hc, Hc1, Ht1.
    split_and!; [simpl; f_equal; lia|lia|lia| |lia].
    apply Forall_app. split; [apply request_asks_model|by apply quiet_asks_model].
Qed.

Lemma invoke_world self query model verbose w :
  ∃ new,
    trace (invoke endpoint self query model verbose w).2 = trace w ++ new ∧
    served (invoke endpoint self query model verbose w).2 =
      served w + completions_in new ∧
    completions_in new ≤ 2 ∧
    asks_model self model new ∧
    tool_runs_in new ≤ length (requested w).
Proof.
  rewrite invoke_eq.
  assert (Hon : ∀ l h,
    ∃ new,
      trace (invoke_on endpoint self l model verbose
               (mkWorld h (served w) (trace w))).2 = trace w ++ new ∧
      served (invoke_on endpoint self l model verbose
                (mkWorld h (served w) (trace w))).2 =
        served w + completions_in new ∧
      completions_in new ≤ 2 ∧
      asks_model self model new ∧
      tool_runs_in new ≤ length (requested w)).
  { intros l h.
    destruct (invoke_on_world self l model verbose
                (mkWorld h (served w) (trace w)))
      as (extra & new & -> & Hc & Hasks & Ht).
    destruct Hc as [_ Hc]. exists new. by split_and!. }
  destruct query as [q|m|m|l|]; simpl.
  - apply Hon.
  - exists []. rewrite app_nil_r. unfold completions_in, tool_runs_in.
    split_and!; [done|simpl; lia|simpl; lia|constructor|simpl; lia].
  - apply Hon.
  - destruct w as [h n t]. apply (Hon l h).
  - exists []. rewrite app_nil_r. unfold completions_in, tool_runs_in.
    split_and!; [done|simpl; lia|simpl; lia|constructor|simpl; lia].
Qed.

(** X11: whatever the query and the outcome, exception included, a call
    of [invoke] makes at most two model calls and runs at most one tool
    callable per request of the first response. *)
Theorem invoke_call_budget self query model verbose w :
  let after := (invoke endpoint self query model verbose w).2 in
  ∃ new,
    trace after = trace w ++ new ∧
    served after = served w + completions_in new ∧
    completions_in new ≤ 2 ∧
    tool_runs_in new ≤ length (requested w).
Proof.
  intros after. subst after.
  destruct (invoke_world self query model verbose w)
    as (new & Htrace & Hserved & Hc & _ & Ht).
  by exists new.
Qed.

(** X12: every model call of a run of [invoke] names the model given to
    [invoke] when that is a non-empty string and the client's own model
    name otherwise ([None] and the empty string both fall back), and
    offers the schemas of all registered tools in registration order. *)
Theorem invoke_requests self query model verbose w :
  (∃ new,
     trace (invoke endpoint self query model verbose w).2 = trace w ++ new ∧
     Forall (λ e, is_completion e = true →
                  ∃ sent, e = EvCompletion (py_or model (model_name self)) sent
                                (map (λ tool, schema tool.2) (tools self)))
            new) ∧
  (∀ default : option string,
     py_or None default = default ∧
     py_or (Some "") default = default ∧
     ∀ s, s ≠ "" → py_or (Some s) default = Some s).
Proof.
  split.
  - destruct (invoke_world self query model verbose w)
      as (new & Htrace & _ & _ & Hasks & _).
    by exists new.
  - intros d. split_and!; [done|done|].
    intros s Hs. unfold py_or, truthy.
    by apply String.eqb_neq in Hs as ->.
Qed.

Lemma invoke_heap self query model verbose w l ms :
  conversation w query = Some (l, ms) →
  ∃ extra,
    heap (invoke endpoint self query model verbose w).2 =
      <[l := ms ++ extra]> (heap w).
Proof.
  intros Hconv. rewrite (invoke_conversation _ _ _ _ _ _ _ _ Hconv).
  destruct (invoke_on_world self l model verbose
              (mkWorld (<[l := ms]> (heap w)) (served w) (trace w)))
    as (extra & new & -> & _).
  exists extra; simpl. by rewrite alter_insert_eq.
Qed.

(** X13: whatever the outcome, exception included, [invoke] only appends
    to the conversation list: its former contents stay in front, in
    order, and no other list object changes. *)
Theorem invoke_only_appends self query model verbose w l ms :
  conversation w query = Some (l, ms) →
  let after := (invoke endpoint self query model verbose w).2 in
  (∃ extra, heap after !! l = Some (ms ++ extra)) ∧
  (∀ l', l' ≠ l → heap after !! l' = heap w !! l').
Proof.
  intros Hconv after. subst after.
  destruct (invoke_heap self query model verbose w l ms Hconv) as [extra ->].
  split.
  - exists extra. apply lookup_insert_eq.
  - intros l' Hne. by apply lookup_insert_ne.
Qed.

(** X14: a call of [invoke] with a text query works on a list of its own:
    whatever the outcome, every list object that exists before the call
    has the same contents after it. *)
Theorem invoke_text_query_frame self q model verbose w l' held :
  heap w !! l' = Some held →
  heap (invoke endpoint self (QStr q) model verbose w).2 !! l' = Some held.
Proof.
  intros Hheld.
  destruct (invoke_heap self (QStr q) model verbose w _ _ eq_refl)
    as [extra ->].
  rewrite lookup_insert_ne; [done|].
  intros <-. pose proof (is_fresh (dom (heap w))) as Hfresh.
  apply not_elem_of_dom in Hfresh. congruence.
Qed.

Lemma invoke_on_verbose self l model w :
  let quietly := invoke_on endpoint self l model false w in
  let loudly := invoke_on endpoint self l model true w in
  loudly.1 = quietly.1 ∧
  heap loudly.2 = heap quietly.2 ∧
  served loudly.2 = served quietly.2 ∧
  ∃ printed,
    trace loudly.2 = trace quietly.2 ++ printed ∧
    (printed = [] ∨ ∃ text, printed = [EvPrintResponse text]).
Proof.
  intros quietly loudly. subst quietly loudly.
  rewrite !invoke_on_eq; simpl.
  assert (Hsame : ∀ r : Result Choice * World,
    r.1 = r.1 ∧ heap r.2 = heap r.2 ∧ served r.2 = served r.2 ∧
    ∃ printed : list (@Event _ Schema),
      trace r.2 = trace r.2 ++ printed ∧
      (printed = [] ∨ ∃ text, printed = [EvPrintResponse text])).
  { intros r. split_and!; [done..|]. exists []. rewrite app_nil_r. auto. }
  destruct (top_choice (endpoint (served w))) as [r1|e]; [|apply Hsame].
  destruct (cm_tool_calls (message r1)) as [tcs|]; [apply Hsame|]; simpl.
  split_and!; [done..|].
  exists [EvPrintResponse (cm_content (message r1))].
  split; [|right; by eexists].
  rewrite <- app_assoc. done.
Qed.

(** X15: [verbose] only prints: with and without it [invoke] gives the
    same result or exception, the same lists and the same model calls; the
    trace of the verbose run has at most the printed response at its end. *)
Theorem invoke_verbose_only_prints self query model w :
  let quietly := invoke endpoint self query model false w in
  let loudly := invoke endpoint self query model true w in
  loudly.1 = quietly.1 ∧
  heap loudly.2 = heap quietly.2 ∧
  served loudly.2 = served quietly.2 ∧
  ∃ printed,
    trace loudly.2 = trace quietly.2 ++ printed ∧
    (printed = [] ∨ ∃ text, printed = [EvPrintResponse text]).
Proof.
  intros quietly loudly. subst quietly loudly. rewrite !invoke_eq.
  destruct query as [q|m|m|l|]; simpl; try apply invoke_on_verbose;
    (split_and!; [done..|]; exists []; rewrite app_nil_r; auto).
Qed.

(** X16: when the first exchange with the endpoint raises, or its
    response has no choice ([IndexError]), [invoke] raises that exception
    after this one model call; nothing is appended to the conversation
    list and no tool is run. *)
Theorem invoke_first_exchange_fails self query model verbose w l ms e :
  conversation w query = Some (l, ms) →
  endpoint (served w) = Raise e ∨ (endpoint (served w) = Ok [] ∧ e = IndexError) →
  invoke endpoint self query model verbose w =
    (Raise e,
     mkWorld (<[l := ms]> (heap w)) (S (served w))
       (trace w ++ [request self model ms])).
Proof.
  intros Hconv Hfails. rewrite (invoke_conversation _ _ _ _ _ _ _ _ Hconv).
  rewrite invoke_on_eq; simpl. rewrite lookup_insert_eq; simpl.
  by destruct Hfails as [-> | [-> ->]].
Qed.

(** X17: an exception raised while a request of the first response is
    dispatched (by the callable, by the decoding of the arguments or by
    their unpacking) leaves [invoke] unchanged: later requests are not
    dispatched and the model is not called again.  The conversation list
    keeps the assistant Message and the tool-result Messages of the
    requests that were resolved before. *)
Theorem invoke_tool_failure self query model verbose w l ms r1 rest1
    pre tc post outs e :
  conversation w query = Some (l, ms) →
  endpoint (served w) = Ok (r1 :: rest1) →
  cm_tool_calls (message r1) = Some (pre ++ tc :: post) →
  Forall2 (resolves self) pre outs →
  tool_call_raises self tc e →
  ∃ w' evs,
    invoke endpoint self query model verbose w = (Raise e, w') ∧
    heap w' !! l = Some (ms ++ model_dump (message r1) :: tool_messages pre outs) ∧
    served w' = S (served w) ∧
    trace w' = trace w ++ request self model ms :: batch_events pre outs ++ evs ∧
    (evs = [] ∨ ∃ kwargs, evs = [EvToolRun (fn_name (tc_function tc)) kwargs]).
Proof.
  intros Hconv Hfirst Htcs Hall Hraises.
  rewrite (invoke_conversation _ _ _ _ _ _ _ _ Hconv).
  rewrite invoke_on_eq; simpl. rewrite Hfirst; simpl. rewrite Htcs.
  unfold bind at 1. rewrite for_each_app. unfold bind at 1.
  rewrite (for_each_resolved _ _ _ _ _ Hall); simpl.
  unfold bind at 1 2.
  match goal with |- context [_make_tool_call self tc ?w1] =>
    pose proof (Hraises w1) as Hres;
    destruct (tool_call_world self tc w1) as (evs & Hw & Hevs & _);
    destruct (_make_tool_call self tc w1) as [res w2]
  end.
  simpl in Hres, Hw. subst res w2.
  eexists _, evs. split; [reflexivity|]; simpl.
  rewrite extend_extend.
  erewrite extend_live by apply lookup_insert_eq.
  rewrite !lookup_insert_eq, <- !app_assoc. done.
Qed.

End ClientMore.

(** ** More scenarios *)

Section ScenariosMore.
Import Toy Examples.

Lemma add_tool_lookup_witness :
  let registered : @LLMClient runtime string :=
    mkLLMClient None [("get_weather", mkToolEntry get_weather "get_weather")] in
  ∃ schema,
    name_schema get_weather_function = Ok schema ∧
    dict_get (tools registered) "get_weather" =
      Some (mkToolEntry get_weather schema) ∧
    (∀ n, n ≠ "get_weather" →
       dict_get (tools registered) n = dict_get (tools (__init__ None)) n) ∧
    model_name registered = None.
Proof.
  intros registered.
  apply (add_tool_lookup name_schema (__init__ None) get_weather_function
           registered eq_refl).
Defined.

Lemma add_tool_keys_witness :
  let registered : @LLMClient runtime string :=
    mkLLMClient None [("get_weather", mkToolEntry get_weather "get_weather")] in
  (tools registered).*1 =
    (if decide ("get_weather" ∈ (tools (@__init__ runtime string None)).*1)
     then (tools (@__init__ runtime string None)).*1
     else (tools (@__init__ runtime string None)).*1 ++ ["get_weather"]) ∧
  (NoDup (tools (@__init__ runtime string None)).*1 → NoDup (tools registered).*1).
Proof.
  intros registered.
  apply (add_tool_keys name_schema (__init__ None) get_weather_function
           registered eq_refl).
Defined.

Lemma add_tool_overwrites_witness :
  let registered : @LLMClient runtime string :=
    mkLLMClient None [("get_weather", mkToolEntry get_weather "get_weather")] in
  let other := mkPyFunction "get_weather" get_time in
  add_tool name_schema registered other =
    add_tool name_schema (__init__ None) other.
Proof.
  intros registered other.
  apply (add_tool_overwrites name_schema (__init__ None) get_weather_function
           other registered eq_refl eq_refl).
Defined.

Lemma add_tool_then_dispatch_witness :
  let registered : @LLMClient runtime string :=
    mkLLMClient None [("get_weather", mkToolEntry get_weather "get_weather")] in
  _make_tool_call registered (weather_call "call_1") world0 =
    (Ok ("call_1", "get_weather", "Sunny, 22C"),
     mkWorld (heap world0) (served world0)
       (trace world0 ++ [@EvToolRun runtime _ "get_weather" [("city", Str "Paris")]])).
Proof.
  intros registered.
  apply (add_tool_then_dispatch name_schema (__init__ None) get_weather_function
           registered (weather_call "call_1") (Dict [("city", "Paris")])
           [("city", Str "Paris")] world0 eq_refl eq_refl eq_refl eq_refl).
Defined.

Lemma invoke_only_appends_witness :
  let held := [user "hi"] in
  let answers := [[asks [time_call "call_1" None]]] in
  let after := (run_invoke answers (QList 7) (world_with held)).2 in
  (∃ extra, heap after !! 7 = Some (held ++ extra)) ∧
  (∀ l', l' ≠ 7 → heap after !! l' = heap (world_with held) !! l').
Proof.
  intros held answers.
  apply (invoke_only_appends (scripted answers) client (QList 7) None false
           (world_with held) 7 held eq_refl).
Defined.

Lemma invoke_text_query_frame_witness :
  let held := [user "hi"] in
  heap (run_invoke [[says "4"]] (QStr "2+2?") (world_with held)).2 !! 7 =
    Some held.
Proof.
  intros held.
  apply (invoke_text_query_frame (scripted [[says "4"]]) client "2+2?" None
           false (world_with held) 7 held eq_refl).
Defined.

Lemma invoke_first_exchange_fails_witness :
  let l := fresh (dom (heap world0)) in
  run_invoke [] (QStr "2+2?") world0 =
    (Raise (Raised "APIConnectionError"),
     mkWorld (<[l := [user "2+2?"]]> (heap world0)) 1
       (trace world0 ++ [request client None [user "2+2?"]])).
Proof.
  intros l.
  apply (invoke_first_exchange_fails (scripted []) client (QStr "2+2?") None
           false world0 l [user "2+2?"] (Raised "APIConnectionError")
           eq_refl (or_introl eq_refl)).
Defined.

Lemma weather_call_resolves2 (id : string) :
  resolves client2 (weather_call id) sunny.
Proof.
  exists (mkToolEntry get_weather "get_weather"), (Dict [("city", "Paris")]).
  split_and!; reflexivity.
Qed.

Lemma invoke_tool_failure_witness :
  let first := asks [weather_call "call_1"; time_call "call_2" None;
                     weather_call "call_3"] in
  let asked := user "What's the weather in Paris?" in
  ∃ w' evs,
    run_invoke2 [[first]; [says "It is sunny."]] weather_query false world0 =
      (Raise (Raised "OSError"), w') ∧
    heap w' !! 0 =
      Some [asked; model_dump (message first); weather_result "call_1"] ∧
    served w' = 1 ∧
    trace w' = request client2 None [asked] ::
                 [@EvToolRun runtime _ "get_weather" [("city", Str "Paris")];
                  EvPrintCalled "get_weather"] ++ evs ∧
    (evs = [] ∨ ∃ kwargs, evs = [@EvToolRun runtime _ "get_time" kwargs]).
Proof.
  intros first asked.
  apply (invoke_tool_failure (scripted [[first]; [says "It is sunny."]]) client2
           weather_query None false world0 (fresh (dom (heap world0))) [asked]
           first [] [weather_call "call_1"] (time_call "call_2" None)
           [weather_call "call_3"] [sunny] (Raised "OSError")
           eq_refl eq_refl eq_refl).
  - constructor; [apply weather_call_resolves2 | constructor].
  - intros w. rewrite make_tool_call_steps. reflexivity.
Defined.

(** C3, as stated, fails when the raw arguments of a request do not
    decode: the tool is registered and its callable returns on every call,
    and yet [invoke] raises the decoder's error after one model call, the
    callable is not run and no tool-result Message is appended. *)
Lemma invoke_registered_tool_bad_arguments :
  let first := asks [ping_call "call_1" (Some "{")] in
  let run := invoke (scripted [[first]; [says "pong"]]) client3 (QStr "hi")
               None false world0 in
  dict_get (tools client3) "ping" = Some (mkToolEntry ping "ping") ∧
  (∀ kwargs, fn_call ping kwargs = Ok (Str "pong")) ∧
  run.1 = Raise JSONDecodeError ∧
  heap run.2 !! 0 = Some [user "hi"; model_dump (message first)] ∧
  served run.2 = 1 ∧
  tool_runs_in (trace run.2) = 0.
Proof.
  split_and!; [reflexivity | intros kwargs; reflexivity
              | vm_compute; reflexivity ..].
Qed.

End ScenariosMore.
